(** * sekai-honors-sync: a shallow embedding of [scripts/sync_honors.py]

    The script fetches three JSON snapshots (honors, bonds honors, honor
    groups) for one game server and upserts them into PostgreSQL inside one
    transaction.  This development embeds the script as executable
    functions over an explicit machine state (the committed tables, the open
    transaction and a trace of the outward calls) and proves the properties
    of its specification.

    Outside world.  The remote hosts, the database server's own verdicts and
    the clock are an oracle, [world]; every theorem quantifies over it. *)

From Stdlib Require Import List String Ascii ZArith Bool Arith Lia.
From Corelib Require SpecFloat.
Import ListNotations.

Local Open Scope string_scope.
Local Open Scope list_scope.

(* ================================================================== *)
(** * Python values *)
(* ================================================================== *)

Set Warnings "-register-all".

(** A Python [float]: an IEEE 754 binary64 datum, given by its sign,
    mantissa and exponent; [json.loads] also yields the infinities and NaN. *)
Definition float : Type := SpecFloat.spec_float.

(** What [resp.json()] can return.  A JSON number without fraction or
    exponent is an [int], any other a [float].  A [dict] is given by its
    [items()], one binding per key. *)
Inductive pyval : Type :=
| PNone
| PBool (b : bool)
| PInt (z : Z)
| PFloat (f : float)
| PStr (s : string)
| PList (l : list pyval)
| PDict (d : list (string * pyval)).

(** [type(v).__name__] *)
Definition type_name (v : pyval) : string :=
  match v with
  | PNone => "NoneType"
  | PBool _ => "bool"
  | PInt _ => "int"
  | PFloat _ => "float"
  | PStr _ => "str"
  | PList _ => "list"
  | PDict _ => "dict"
  end.

(** [bool(v)], as used by [if not data] *)
Definition truthy (v : pyval) : bool :=
  match v with
  | PNone => false
  | PBool b => b
  | PInt z => negb (z =? 0)%Z
  | PFloat f => match f with SpecFloat.S754_zero _ => false | _ => true end
  | PStr s => negb (s =? "")
  | PList l => match l with [] => false | _ => true end
  | PDict d => match d with [] => false | _ => true end
  end.

(** Equality of the data of two floats. *)
Definition float_eqb (a b : float) : bool :=
  match a, b with
  | SpecFloat.S754_zero s, SpecFloat.S754_zero s' => Bool.eqb s s'
  | SpecFloat.S754_infinity s, SpecFloat.S754_infinity s' => Bool.eqb s s'
  | SpecFloat.S754_nan, SpecFloat.S754_nan => true
  | SpecFloat.S754_finite s m e, SpecFloat.S754_finite s' m' e' =>
      Bool.eqb s s' && (m =? m')%positive && (e =? e')%Z
  | _, _ => false
  end.

(** Structural equality of values, used to compare key columns. *)
Fixpoint pyval_eqb (a b : pyval) {struct a} : bool :=
  match a, b with
  | PNone, PNone => true
  | PBool x, PBool y => Bool.eqb x y
  | PInt x, PInt y => (x =? y)%Z
  | PFloat x, PFloat y => float_eqb x y
  | PStr x, PStr y => (x =? y)
  | PList x, PList y =>
      (fix go (x y : list pyval) {struct x} : bool :=
         match x, y with
         | [], [] => true
         | u :: x', v :: y' => pyval_eqb u v && go x' y'
         | _, _ => false
         end) x y
  | PDict x, PDict y =>
      (fix go (x y : list (string * pyval)) {struct x} : bool :=
         match x, y with
         | [], [] => true
         | (k, u) :: x', (k', v) :: y' => (k =? k') && pyval_eqb u v && go x' y'
         | _, _ => false
         end) x y
  | _, _ => false
  end.

(** Lookup in an association list: first binding of the key. *)
Fixpoint assoc {A : Type} (k : string) (d : list (string * A)) : option A :=
  match d with
  | [] => None
  | (k', v) :: d' => if k' =? k then Some v else assoc k d'
  end.

(* ================================================================== *)
(** * Exceptions and results *)
(* ================================================================== *)

(** The exception classes the script can meet; all derive from [Exception]. *)
Inductive exn : Type :=
| TypeError (msg : string)
| AttributeError (msg : string)
| ValueError (msg : string)
| RecursionError (msg : string)
| DatabaseError (msg : string).   (* psycopg2.Error and its subclasses *)

(** [str(e)] *)
Definition str (e : exn) : string :=
  match e with
  | TypeError m | AttributeError m | ValueError m | RecursionError m
  | DatabaseError m => m
  end.

Inductive result (A : Type) : Type :=
| Ok (a : A)
| Raise (e : exn).
Arguments Ok {A} a.
Arguments Raise {A} e.

Definition rbind {A B : Type} (r : result A) (f : A -> result B) : result B :=
  match r with
  | Ok a => f a
  | Raise e => Raise e
  end.

Declare Scope result_scope.
Delimit Scope result_scope with result.
Notation "x <~ c ;; k" := (rbind c (fun x => k))
  (at level 100, c at next level, right associativity) : result_scope.

(** [len(v)] *)
Definition py_len (v : pyval) : result nat :=
  match v with
  | PStr s => Ok (String.length s)
  | PList l => Ok (List.length l)
  | PDict d => Ok (List.length d)
  | _ => Raise (TypeError ("object of type '" ++ type_name v ++ "' has no len()"))
  end.

(** [iter(v)]: a list yields its elements, a dict its keys, a string its
    one-character substrings. *)
Definition py_iter (v : pyval) : result (list pyval) :=
  match v with
  | PList l => Ok l
  | PDict d => Ok (map (fun kv => PStr (fst kv)) d)
  | PStr s => Ok (map (fun c => PStr (String c EmptyString)) (list_ascii_of_string s))
  | _ => Raise (TypeError ("'" ++ type_name v ++ "' object is not iterable"))
  end.

(** [item.get(key, default)]; only a dict has the method. *)
Definition py_get (item : pyval) (key : string) (default : pyval) : result pyval :=
  match item with
  | PDict d => Ok (match assoc key d with Some v => v | None => default end)
  | _ => Raise (AttributeError ("'" ++ type_name item ++ "' object has no attribute 'get'"))
  end.

(* ================================================================== *)
(** * SQL values, rows and tables *)
(* ================================================================== *)

(** A value sent to or held by the database: an adapted Python value
    ([Plain PNone] is SQL NULL), a value wrapped by [psycopg2.extras.Json],
    or a timestamp. *)
Inductive sqlval : Type :=
| Plain (v : pyval)
| Json (v : pyval)
| Timestamp (t : Z).

Definition sql_null : sqlval := Plain PNone.

Definition is_null (v : sqlval) : bool :=
  match v with
  | Plain PNone => true
  | _ => false
  end.

Definition sqlval_eqb (a b : sqlval) : bool :=
  match a, b with
  | Plain x, Plain y => pyval_eqb x y
  | Json x, Json y => pyval_eqb x y
  | Timestamp x, Timestamp y => (x =? y)%Z
  | _, _ => false
  end.

(** A stored row gives a value to each column of its table. *)
Definition row : Type := list (string * sqlval).
Definition table : Type := list row.

(** A column read; a column the row does not have reads as NULL. *)
Definition row_get (c : string) (r : row) : sqlval :=
  match assoc c r with
  | Some v => v
  | None => sql_null
  end.

Inductive relation : Type := Honors | BondsHonors | HonorGroups.

Record database : Type := {
  honors : table;
  bonds_honors : table;
  honor_groups : table
}.

Definition get_table (rel : relation) (db : database) : table :=
  match rel with
  | Honors => honors db
  | BondsHonors => bonds_honors db
  | HonorGroups => honor_groups db
  end.

Definition set_table (rel : relation) (t : table) (db : database) : database :=
  match rel with
  | Honors => {| honors := t; bonds_honors := bonds_honors db; honor_groups := honor_groups db |}
  | BondsHonors => {| honors := honors db; bonds_honors := t; honor_groups := honor_groups db |}
  | HonorGroups => {| honors := honors db; bonds_honors := bonds_honors db; honor_groups := t |}
  end.

(* ================================================================== *)
(** * The upsert statements *)
(* ================================================================== *)

(** The three statements have one shape,
    [INSERT INTO t (cols) VALUES %s ON CONFLICT (target) DO UPDATE SET ...],
    and are kept as data: the column list, the conflict target and the SET
    clause, whose right-hand sides are [EXCLUDED.col] or
    [CURRENT_TIMESTAMP]. *)
Inductive set_expr : Type :=
| Excluded (col : string)
| CurrentTimestamp.

Record upsert_sql : Type := {
  into : relation;
  insert_columns : list string;
  conflict_target : list string;
  update_set : list (string * set_expr)
}.

(** An entry of the [template] argument of [execute_values]. *)
Inductive template_item : Type :=
| Placeholder            (* %s *)
| TplCurrentTimestamp.   (* CURRENT_TIMESTAMP *)

(** One VALUES tuple: each [%s] takes the next element of the record.  A
    record with too few or too many elements is refused. *)
Fixpoint fill (template : list template_item) (record : list sqlval) (now : Z)
  : option (list sqlval) :=
  match template with
  | [] => match record with [] => Some [] | _ => None end
  | Placeholder :: template' =>
      match record with
      | [] => None
      | v :: record' => option_map (cons v) (fill template' record' now)
      end
  | TplCurrentTimestamp :: template' =>
      option_map (cons (Timestamp now)) (fill template' record now)
  end.

Definition key : Type := list sqlval.

Definition key_of (sql : upsert_sql) (r : row) : key :=
  map (fun c => row_get c r) (conflict_target sql).

Fixpoint key_eqb (a b : key) : bool :=
  match a, b with
  | [], [] => true
  | x :: a', y :: b' => sqlval_eqb x y && key_eqb a' b'
  | _, _ => false
  end.

(** [DO UPDATE SET]: every column of the existing row that the SET clause
    assigns takes its new value, every other column keeps its own. *)
Definition do_update (sql : upsert_sql) (now : Z) (existing proposed : row) : row :=
  map (fun cv : string * sqlval =>
         let (c, v) := cv in
         (c, match assoc c (update_set sql) with
             | Some (Excluded c') => row_get c' proposed
             | Some CurrentTimestamp => Timestamp now
             | None => v
             end)) existing.

(** One proposed row: the row holding its key is updated in place, and
    when there is none the proposed row is inserted. *)
Fixpoint upsert_row (sql : upsert_sql) (now : Z) (r : row) (t : table) : table :=
  match t with
  | [] => [r]
  | x :: t' =>
      if key_eqb (key_of sql x) (key_of sql r)
      then do_update sql now x r :: t'
      else x :: upsert_row sql now r t'
  end.

Definition key_mem (k : key) (ks : list key) : bool := existsb (key_eqb k) ks.

(** Modelled from the spec: the table declarations are not part of the
    source.  Section 6 of the specification gives each table as keyed by
    (region, item id) under a unique constraint, so the columns of the
    conflict target are taken as NOT NULL: a proposed row with a NULL there
    is refused.

    One command, row by row.  [touched] holds the keys this command has
    already inserted or updated: PostgreSQL refuses to affect a row a second
    time within one ON CONFLICT DO UPDATE command. *)
Fixpoint exec_rows (sql : upsert_sql) (now : Z) (rs : list row) (touched : list key)
  (t : table) : result table :=
  match rs with
  | [] => Ok t
  | r :: rs' =>
      let k := key_of sql r in
      if existsb is_null k then
        Raise (DatabaseError "null value in key column violates not-null constraint")
      else if key_mem k touched then
        Raise (DatabaseError "ON CONFLICT DO UPDATE command cannot affect row a second time")
      else exec_rows sql now rs' (k :: touched) (upsert_row sql now r t)
  end.

(** The VALUES list of one command, from the records of one page. *)
Fixpoint values_of (sql : upsert_sql) (template : list template_item) (now : Z)
  (page : list (list sqlval)) : result (list row) :=
  match page with
  | [] => Ok []
  | record :: page' =>
      match fill template record now with
      | None => Raise (DatabaseError "not all arguments converted during string formatting")
      | Some vs =>
          match values_of sql template now page' with
          | Ok rows => Ok (combine (insert_columns sql) vs :: rows)
          | Raise e => Raise e
          end
      end
  end.

(** [psycopg2.extras._paginate]: consecutive pages of [size] records, the
    last one shorter when the records do not divide evenly.  [room] counts
    the free places of the page being filled, [page] holds it reversed. *)
Fixpoint chunks {A : Type} (size room : nat) (page : list A) (l : list A) : list (list A) :=
  match l with
  | [] => match page with [] => [] | _ => [rev page] end
  | x :: l' =>
      match room with
      | S (S m) => chunks size (S m) (x :: page) l'
      | _ => rev (x :: page) :: chunks size size [] l'
      end
  end.

Definition paginate {A : Type} (page_size : nat) (l : list A) : list (list A) :=
  chunks page_size page_size [] l.

(* ================================================================== *)
(** * The outside world and the machine state *)
(* ================================================================== *)

(** How one [requests.get(url, timeout=30)] followed by
    [resp.raise_for_status()] and [resp.json()] ends: by the call that
    raises, or with the decoded body.  [Uncaught] is an exception of a class
    that neither [except] clause of [fetch_json] names: [resp.json()] raises
    [RecursionError] on a body nested deeper than the interpreter's
    recursion limit (two thousand opening brackets, which is not valid JSON
    either) and [ValueError] on an integer literal longer than the
    interpreter's digit limit. *)
Inductive response : Type :=
| RequestFailed (msg : string)   (* requests.get raises a RequestException *)
| StatusError (msg : string)     (* raise_for_status raises HTTPError *)
| InvalidJson (msg : string)     (* resp.json() raises JSONDecodeError *)
| Uncaught (e : exn)             (* one of the calls raises another exception *)
| Body (data : pyval).

Record world : Type := {
  http_get : string -> response;
  (** [psycopg2.connect] refuses with this message *)
  connect_fault : option string;
  (** the server or the driver refuses a command on this relation with these
      records (a type mismatch, a value that cannot be adapted, a lost
      connection): the checks that depend on declarations outside the
      source *)
  execute_fault : relation -> list (list sqlval) -> option string;
  (** [conn.commit()] fails with this message *)
  commit_fault : option string;
  (** the value of [CURRENT_TIMESTAMP] in the run's transaction *)
  current_timestamp : Z
}.

(** The calls that leave the process, in order. *)
Inductive event : Type :=
| Request (url : string)
| Connect (dsn : string)
| Execute (rel : relation) (rows : nat)
| Commit
| Rollback
| Close.

(** [store] is the committed data, what any later session sees; [txn] is
    the view of the connection's open transaction. *)
Record state : Type := {
  store : database;
  txn : database;
  trace : list event
}.

Definition emit (ev : event) (st : state) : state :=
  {| store := store st; txn := txn st; trace := trace st ++ [ev] |}.

(** Computations that read and change the machine state and may raise; an
    exception keeps the effects that came before it. *)
Definition M (A : Type) : Type := state -> result A * state.

Definition ret {A : Type} (a : A) : M A := fun st => (Ok a, st).

Definition bind {A B : Type} (m : M A) (f : A -> M B) : M B :=
  fun st =>
    match m st with
    | (Ok a, st') => f a st'
    | (Raise e, st') => (Raise e, st')
    end.

Definition lift {A : Type} (r : result A) : M A := fun st => (r, st).

Definition tell (ev : event) : M unit := fun st => (Ok tt, emit ev st).

Declare Scope m_scope.
Delimit Scope m_scope with M.
Notation "x <- c ;; k" := (bind c (fun x => k))
  (at level 100, c at next level, right associativity) : m_scope.
Notation "c ;; k" := (bind c (fun _ => k))
  (at level 100, right associativity) : m_scope.

(* ================================================================== *)
(** * The script *)
(* ================================================================== *)

Definition SERVERS : list (string * string) :=
  [ ("cn", "haruki-sekai-sc-master");
    ("jp", "haruki-sekai-master");
    ("en", "haruki-sekai-en-master");
    ("tw", "haruki-sekai-tc-master");
    ("kr", "haruki-sekai-kr-master") ].

Definition SERVER_NAMES : list (string * string) :=
  [ ("cn", "简体中文");
    ("jp", "日本語");
    ("en", "English");
    ("tw", "繁體中文");
    ("kr", "한국어") ].

Definition RAW_URL_TEMPLATE (repo file : string) : string :=
  "https://raw.githubusercontent.com/Team-Haruki/" ++ repo ++ "/main/master/" ++ file.

Definition CDN_URL_TEMPLATE (repo file : string) : string :=
  "https://cdn.jsdelivr.net/gh/Team-Haruki/" ++ repo ++ "@main/master/" ++ file.

(** The fields of a [HonorsSyncer]; its connection is the machine state. *)
Record HonorsSyncer : Type := {
  server : string;
  repo : string
}.

(** [psycopg2.connect(database_url, sslmode='require')] with
    [autocommit = False]: the transaction starts from the committed data. *)
Definition connect (w : world) (database_url : string) : M unit :=
  fun st =>
    let st' := emit (Connect database_url) st in
    match connect_fault w with
    | Some msg => (Raise (DatabaseError msg), st')
    | None => (Ok tt, {| store := store st'; txn := store st'; trace := trace st' |})
    end.

(** [HonorsSyncer.__init__] *)
Definition HonorsSyncer_init (w : world) (database_url server : string) : M HonorsSyncer :=
  match assoc server SERVERS with
  | None => lift (Raise (ValueError ("Unknown server: " ++ server)))
  | Some repo =>
      if repo =? "" then lift (Raise (ValueError ("Unknown server: " ++ server)))
      else (connect w database_url ;;
            ret {| server := server; repo := repo |})%M
  end.

(** [HonorsSyncer.close]; closing discards what was not committed. *)
Definition close : M unit :=
  fun st => (Ok tt, emit Close {| store := store st; txn := store st; trace := trace st |}).

(** The [for url in urls] loop of [fetch_json]: the first URL that yields a
    body decides; a URL whose request, status check or decoding raises a
    [RequestException] or a [JSONDecodeError] is passed over.  An exception
    of another class leaves the loop and the method: the remaining URLs are
    not tried.  [len(data)] is evaluated for the log line, inside the
    [try], and its [TypeError] is likewise caught by neither [except]
    clause. *)
Fixpoint fetch_loop (w : world) (urls : list string) : M pyval :=
  match urls with
  | [] => ret PNone
  | url :: urls' =>
      (tell (Request url) ;;
       match http_get w url with
       | Body data =>
           _ <- lift (py_len data) ;;
           ret data
       | RequestFailed _ | StatusError _ => fetch_loop w urls'
       | InvalidJson _ => fetch_loop w urls'
       | Uncaught e => lift (Raise e)
       end)%M
  end.

(** [HonorsSyncer.fetch_json] *)
Definition fetch_json (w : world) (self : HonorsSyncer) (filename : string) : M pyval :=
  let urls := [ RAW_URL_TEMPLATE (repo self) filename;
                CDN_URL_TEMPLATE (repo self) filename ] in
  fetch_loop w urls.

(** One command of [execute_values]: the page's records, formatted with the
    template, are sent as one INSERT.  A refused command leaves the
    transaction's tables as they were. *)
Definition execute (w : world) (sql : upsert_sql) (template : list template_item)
  (page : list (list sqlval)) : M unit :=
  fun st =>
    let st1 := emit (Execute (into sql) (List.length page)) st in
    match execute_fault w (into sql) page with
    | Some msg => (Raise (DatabaseError msg), st1)
    | None =>
        match values_of sql template (current_timestamp w) page with
        | Raise e => (Raise e, st1)
        | Ok rows =>
            match exec_rows sql (current_timestamp w) rows []
                    (get_table (into sql) (txn st1)) with
            | Raise e => (Raise e, st1)
            | Ok t =>
                (Ok tt, {| store := store st1;
                           txn := set_table (into sql) t (txn st1);
                           trace := trace st1 |})
            end
        end
    end.

Fixpoint execute_pages (w : world) (sql : upsert_sql) (template : list template_item)
  (pages : list (list (list sqlval))) : M unit :=
  match pages with
  | [] => ret tt
  | page :: pages' =>
      (execute w sql template page ;;
       execute_pages w sql template pages')%M
  end.

(** [psycopg2.extras.execute_values(cur, sql, records, template=...)], with
    its default [page_size] of 100. *)
Definition execute_values (w : world) (sql : upsert_sql) (template : list template_item)
  (records : list (list sqlval)) : M unit :=
  execute_pages w sql template (paginate 100 records).

(** [for item in data: records.append(...)] *)
Fixpoint collect (mapper : pyval -> result (list sqlval)) (items : list pyval)
  : result (list (list sqlval)) :=
  match items with
  | [] => Ok []
  | item :: items' =>
      (record <~ mapper item ;;
       records <~ collect mapper items' ;;
       Ok (record :: records))%result
  end.

(** ** Honors *)

Definition honors_record (self : HonorsSyncer) (item : pyval) : result (list sqlval) :=
  (id <~ py_get item "id" PNone ;;
   seq <~ py_get item "seq" PNone ;;
   groupId <~ py_get item "groupId" PNone ;;
   honorRarity <~ py_get item "honorRarity" PNone ;;
   name <~ py_get item "name" PNone ;;
   assetbundleName <~ py_get item "assetbundleName" PNone ;;
   levels <~ py_get item "levels" (PList []) ;;
   Ok [ Plain (PStr (server self)); Plain id; Plain seq; Plain groupId;
        Plain honorRarity; Plain name; Plain assetbundleName; Json levels ])%result.

Definition honors_sql : upsert_sql := {|
  into := Honors;
  insert_columns :=
    [ "server"; "honor_id"; "seq"; "group_id"; "honor_rarity";
      "name"; "asset_bundle_name"; "levels"; "updated_at" ];
  conflict_target := [ "server"; "honor_id" ];
  update_set :=
    [ ("seq", Excluded "seq");
      ("group_id", Excluded "group_id");
      ("honor_rarity", Excluded "honor_rarity");
      ("name", Excluded "name");
      ("asset_bundle_name", Excluded "asset_bundle_name");
      ("levels", Excluded "levels");
      ("updated_at", CurrentTimestamp) ]
|}.

Definition honors_template : list template_item :=
  [ Placeholder; Placeholder; Placeholder; Placeholder; Placeholder;
    Placeholder; Placeholder; Placeholder; TplCurrentTimestamp ].

(** [HonorsSyncer.sync_honors] *)
Definition sync_honors (w : world) (self : HonorsSyncer) : M nat :=
  (data <- fetch_json w self "honors.json" ;;
   if negb (truthy data) then ret 0 else
   items <- lift (py_iter data) ;;
   records <- lift (collect (honors_record self) items) ;;
   execute_values w honors_sql honors_template records ;;
   ret (List.length records))%M.

(** ** Bonds honors *)

Definition bonds_honors_record (self : HonorsSyncer) (item : pyval) : result (list sqlval) :=
  (id <~ py_get item "id" PNone ;;
   seq <~ py_get item "seq" PNone ;;
   bondsGroupId <~ py_get item "bondsGroupId" PNone ;;
   gameCharacterUnitId1 <~ py_get item "gameCharacterUnitId1" PNone ;;
   gameCharacterUnitId2 <~ py_get item "gameCharacterUnitId2" PNone ;;
   honorRarity <~ py_get item "honorRarity" PNone ;;
   name <~ py_get item "name" PNone ;;
   description <~ py_get item "description" PNone ;;
   levels <~ py_get item "levels" (PList []) ;;
   Ok [ Plain (PStr (server self)); Plain id; Plain seq; Plain bondsGroupId;
        Plain gameCharacterUnitId1; Plain gameCharacterUnitId2;
        Plain honorRarity; Plain name; Plain description; Json levels ])%result.

Definition bonds_honors_sql : upsert_sql := {|
  into := BondsHonors;
  insert_columns :=
    [ "server"; "bonds_honor_id"; "seq"; "bonds_group_id";
      "game_character_unit_id1"; "game_character_unit_id2";
      "honor_rarity"; "name"; "description"; "levels"; "updated_at" ];
  conflict_target := [ "server"; "bonds_honor_id" ];
  update_set :=
    [ ("seq", Excluded "seq");
      ("bonds_group_id", Excluded "bonds_group_id");
      ("game_character_unit_id1", Excluded "game_character_unit_id1");
      ("game_character_unit_id2", Excluded "game_character_unit_id2");
      ("honor_rarity", Excluded "honor_rarity");
      ("name", Excluded "name");
      ("description", Excluded "description");
      ("levels", Excluded "levels");
      ("updated_at", CurrentTimestamp) ]
|}.

Definition bonds_honors_template : list template_item :=
  [ Placeholder; Placeholder; Placeholder; Placeholder; Placeholder; Placeholder;
    Placeholder; Placeholder; Placeholder; Placeholder; TplCurrentTimestamp ].

(** [HonorsSyncer.sync_bonds_honors] *)
Definition sync_bonds_honors (w : world) (self : HonorsSyncer) : M nat :=
  (data <- fetch_json w self "bondsHonors.json" ;;
   if negb (truthy data) then ret 0 else
   items <- lift (py_iter data) ;;
   records <- lift (collect (bonds_honors_record self) items) ;;
   execute_values w bonds_honors_sql bonds_honors_template records ;;
   ret (List.length records))%M.

(** ** Honor groups *)

Definition honor_groups_record (self : HonorsSyncer) (item : pyval) : result (list sqlval) :=
  (id <~ py_get item "id" PNone ;;
   name <~ py_get item "name" PNone ;;
   honorType <~ py_get item "honorType" PNone ;;
   backgroundAssetbundleName <~ py_get item "backgroundAssetbundleName" PNone ;;
   Ok [ Plain (PStr (server self)); Plain id; Plain name; Plain honorType;
        Plain backgroundAssetbundleName ])%result.

Definition honor_groups_sql : upsert_sql := {|
  into := HonorGroups;
  insert_columns :=
    [ "server"; "group_id"; "name"; "honor_type";
      "background_asset_bundle_name"; "updated_at" ];
  conflict_target := [ "server"; "group_id" ];
  update_set :=
    [ ("name", Excluded "name");
      ("honor_type", Excluded "honor_type");
      ("background_asset_bundle_name", Excluded "background_asset_bundle_name");
      ("updated_at", CurrentTimestamp) ]
|}.

Definition honor_groups_template : list template_item :=
  [ Placeholder; Placeholder; Placeholder; Placeholder; Placeholder;
    TplCurrentTimestamp ].

(** [HonorsSyncer.sync_honor_groups] *)
Definition sync_honor_groups (w : world) (self : HonorsSyncer) : M nat :=
  (data <- fetch_json w self "honorGroups.json" ;;
   if negb (truthy data) then ret 0 else
   items <- lift (py_iter data) ;;
   records <- lift (collect (honor_groups_record self) items) ;;
   execute_values w honor_groups_sql honor_groups_template records ;;
   ret (List.length records))%M.

(** ** The run *)

(** The [results] dict of [run]. *)
Record summary : Type := {
  res_server : string;
  res_server_name : option string;
  res_honors : nat;
  res_bonds_honors : nat;
  res_honor_groups : nat;
  success : bool;
  error : option string
}.

Definition set_honors (n : nat) (r : summary) : summary :=
  {| res_server := res_server r; res_server_name := res_server_name r;
     res_honors := n; res_bonds_honors := res_bonds_honors r;
     res_honor_groups := res_honor_groups r;
     success := success r; error := error r |}.

Definition set_bonds_honors (n : nat) (r : summary) : summary :=
  {| res_server := res_server r; res_server_name := res_server_name r;
     res_honors := res_honors r; res_bonds_honors := n;
     res_honor_groups := res_honor_groups r;
     success := success r; error := error r |}.

Definition set_honor_groups (n : nat) (r : summary) : summary :=
  {| res_server := res_server r; res_server_name := res_server_name r;
     res_honors := res_honors r; res_bonds_honors := res_bonds_honors r;
     res_honor_groups := n;
     success := success r; error := error r |}.

Definition set_success (b : bool) (r : summary) : summary :=
  {| res_server := res_server r; res_server_name := res_server_name r;
     res_honors := res_honors r; res_bonds_honors := res_bonds_honors r;
     res_honor_groups := res_honor_groups r;
     success := b; error := error r |}.

Definition set_error (msg : string) (r : summary) : summary :=
  {| res_server := res_server r; res_server_name := res_server_name r;
     res_honors := res_honors r; res_bonds_honors := res_bonds_honors r;
     res_honor_groups := res_honor_groups r;
     success := success r; error := Some msg |}.

(** [self.conn.commit()]: a commit that fails publishes nothing. *)
Definition commit (w : world) : M unit :=
  fun st =>
    let st1 := emit Commit st in
    match commit_fault w with
    | Some msg => (Raise (DatabaseError msg), st1)
    | None => (Ok tt, {| store := txn st1; txn := txn st1; trace := trace st1 |})
    end.

(** [self.conn.rollback()], taken to succeed. *)
Definition rollback (st : state) : state :=
  emit Rollback {| store := store st; txn := store st; trace := trace st |}.

(** The [except Exception as e] branch of [run]. *)
Definition failed (results : summary) (e : exn) (st : state) : summary * state :=
  (set_error (str e) results, rollback st).

(** [HonorsSyncer.run]: [results] is filled in as the [try] block advances,
    so what was assigned before an exception stays in it. *)
Definition run (w : world) (self : HonorsSyncer) (st : state) : summary * state :=
  let results :=
    {| res_server := server self;
       res_server_name := assoc (server self) SERVER_NAMES;
       res_honors := 0; res_bonds_honors := 0; res_honor_groups := 0;
       success := false; error := None |} in
  match sync_honors w self st with
  | (Raise e, st1) => failed results e st1
  | (Ok n1, st1) =>
      let results := set_honors n1 results in
      match sync_bonds_honors w self st1 with
      | (Raise e, st2) => failed results e st2
      | (Ok n2, st2) =>
          let results := set_bonds_honors n2 results in
          match sync_honor_groups w self st2 with
          | (Raise e, st3) => failed results e st3
          | (Ok n3, st3) =>
              let results := set_honor_groups n3 results in
              match commit w st3 with
              | (Raise e, st4) => failed results e st4
              | (Ok _, st4) => (set_success true results, st4)
              end
          end
      end
  end.

(** ** The entry point *)

(** [os.environ], as far as [main] reads it. *)
Record environ : Type := {
  DATABASE_URL : option string;
  SERVER : option string
}.

(** [os.environ.get(name, default)] on the variable's value *)
Definition environ_get (value : option string) (default : string) : string :=
  match value with
  | Some s => s
  | None => default
  end.

(** [main], returning the status the process exits with: [sys.exit(1)]
    gives 1, an exception nobody catches ends the interpreter with 1, and
    falling off the end gives 0. *)
Definition main (w : world) (env : environ) (st : state) : Z * state :=
  match DATABASE_URL env with
  | None => (1%Z, st)
  | Some database_url =>
      if database_url =? "" then (1%Z, st) else
      let server := environ_get (SERVER env) "cn" in
      match assoc server SERVERS with
      | None => (1%Z, st)
      | Some _ =>
          match HonorsSyncer_init w database_url server st with
          | (Raise _, st1) => (1%Z, st1)
          | (Ok syncer, st1) =>
              let (results, st2) := run w syncer st1 in
              let st3 := snd (close st2) in
              if success results then (0%Z, st3) else (1%Z, st3)
          end
      end
  end.

(* ================================================================== *)
(** * Observations used by the statements *)
(* ================================================================== *)

(** The three stages of [run], by the relation each one writes. *)
Definition stage (rel : relation) : world -> HonorsSyncer -> M nat :=
  match rel with
  | Honors => sync_honors
  | BondsHonors => sync_bonds_honors
  | HonorGroups => sync_honor_groups
  end.

Definition snapshot_file (rel : relation) : string :=
  match rel with
  | Honors => "honors.json"
  | BondsHonors => "bondsHonors.json"
  | HonorGroups => "honorGroups.json"
  end.

Definition mapper_of (rel : relation) : HonorsSyncer -> pyval -> result (list sqlval) :=
  match rel with
  | Honors => honors_record
  | BondsHonors => bonds_honors_record
  | HonorGroups => honor_groups_record
  end.

Definition sql_of (rel : relation) : upsert_sql :=
  match rel with
  | Honors => honors_sql
  | BondsHonors => bonds_honors_sql
  | HonorGroups => honor_groups_sql
  end.

Definition template_of (rel : relation) : list template_item :=
  match rel with
  | Honors => honors_template
  | BondsHonors => bonds_honors_template
  | HonorGroups => honor_groups_template
  end.

(** The common text of the three stage functions. *)
Definition sync_with (filename : string) (mapper : pyval -> result (list sqlval))
  (sql : upsert_sql) (template : list template_item) (w : world) (self : HonorsSyncer)
  : M nat :=
  (data <- fetch_json w self filename ;;
   if negb (truthy data) then ret 0 else
   items <- lift (py_iter data) ;;
   records <- lift (collect mapper items) ;;
   execute_values w sql template records ;;
   ret (List.length records))%M.

(** The value of a key of a source object, [None] when the key is missing. *)
Definition field (d : list (string * pyval)) (k : string) : pyval :=
  match assoc k d with
  | Some v => v
  | None => PNone
  end.

(** What [len(data)] makes of a decoded body. *)
Definition sized (data : pyval) : result pyval :=
  match py_len data with
  | Ok _ => Ok data
  | Raise e => Raise e
  end.

(** A request that ended in an exception the loop of [fetch_json] catches:
    a [RequestException] (an error status is one) or a [JSONDecodeError]. *)
Definition is_failure (r : response) : bool :=
  match r with
  | RequestFailed _ | StatusError _ | InvalidJson _ => true
  | Uncaught _ | Body _ => false
  end.

Definition both_fail (w : world) (self : HonorsSyncer) (filename : string) : bool :=
  is_failure (http_get w (RAW_URL_TEMPLATE (repo self) filename)) &&
  is_failure (http_get w (CDN_URL_TEMPLATE (repo self) filename)).

(** Number of [commit] calls in a trace. *)
Fixpoint commits (tr : list event) : nat :=
  match tr with
  | [] => 0
  | Commit :: tr' => S (commits tr')
  | _ :: tr' => commits tr'
  end.

Definition relation_eqb (a b : relation) : bool :=
  match a, b with
  | Honors, Honors | BondsHonors, BondsHonors | HonorGroups, HonorGroups => true
  | _, _ => false
  end.

(** Number of rows sent to a relation in a trace. *)
Fixpoint submitted (rel : relation) (tr : list event) : nat :=
  match tr with
  | [] => 0
  | Execute rel' n :: tr' =>
      (if relation_eqb rel rel' then n else 0) + submitted rel tr'
  | _ :: tr' => submitted rel tr'
  end.

(** A row with its [updated_at] blanked, to compare rows up to that column. *)
Definition hide_updated_at (r : row) : row :=
  map (fun cv : string * sqlval =>
         if fst cv =? "updated_at" then (fst cv, sql_null) else cv) r.

(** The row of a table that holds a key. *)
Definition find_key (sql : upsert_sql) (k : key) (t : table) : option row :=
  find (fun x => key_eqb (key_of sql x) k) t.

Definition has_column (c : string) (r : row) : bool :=
  existsb (fun cv : string * sqlval => fst cv =? c) r.


(** The rows a statement proposes for a list of records. *)
Definition proposed (sql : upsert_sql) (now : Z) (records : list (list sqlval)) : list row :=
  map (fun record => combine (insert_columns sql) (record ++ [Timestamp now])) records.

(** The rows of a list upserted one after the other. *)
Definition upsert_all (sql : upsert_sql) (now : Z) (rows : list row) (t : table) : table :=
  fold_left (fun t r => upsert_row sql now r t) rows t.

(** Number of [%s] in a template. *)
Definition placeholders (template : list template_item) : nat :=
  List.length (filter (fun i => match i with Placeholder => true | _ => false end) template).

(** The [levels] of a source object, as [item.get('levels', [])] reads it. *)
Definition levels_of (d : list (string * pyval)) : pyval :=
  match assoc "levels" d with
  | Some v => v
  | None => PList []
  end.

(** SQL NULL, or the JSON value null. *)
Definition null_like (v : sqlval) : bool :=
  match v with
  | Plain PNone | Json PNone => true
  | _ => false
  end.

(** The value [DO UPDATE] gives column [c] of a row that held [v] there. *)
Definition assigned (sql : upsert_sql) (now : Z) (proposed : row) (c : string)
  (v : sqlval) : sqlval :=
  match assoc c (update_set sql) with
  | Some (Excluded c') => row_get c' proposed
  | Some CurrentTimestamp => Timestamp now
  | None => v
  end.

(** The row a source object proposes: its key from the syncer's server and
    the object's [id], every other column from its source key, and the
    timestamp of the transaction. *)
Definition row_of_object (rel : relation) (self : HonorsSyncer)
  (d : list (string * pyval)) (now : Z) : row :=
  match rel with
  | Honors =>
      [ ("server", Plain (PStr (server self)));
        ("honor_id", Plain (field d "id"));
        ("seq", Plain (field d "seq"));
        ("group_id", Plain (field d "groupId"));
        ("honor_rarity", Plain (field d "honorRarity"));
        ("name", Plain (field d "name"));
        ("asset_bundle_name", Plain (field d "assetbundleName"));
        ("levels", Json (levels_of d));
        ("updated_at", Timestamp now) ]
  | BondsHonors =>
      [ ("server", Plain (PStr (server self)));
        ("bonds_honor_id", Plain (field d "id"));
        ("seq", Plain (field d "seq"));
        ("bonds_group_id", Plain (field d "bondsGroupId"));
        ("game_character_unit_id1", Plain (field d "gameCharacterUnitId1"));
        ("game_character_unit_id2", Plain (field d "gameCharacterUnitId2"));
        ("honor_rarity", Plain (field d "honorRarity"));
        ("name", Plain (field d "name"));
        ("description", Plain (field d "description"));
        ("levels", Json (levels_of d));
        ("updated_at", Timestamp now) ]
  | HonorGroups =>
      [ ("server", Plain (PStr (server self)));
        ("group_id", Plain (field d "id"));
        ("name", Plain (field d "name"));
        ("honor_type", Plain (field d "honorType"));
        ("background_asset_bundle_name", Plain (field d "backgroundAssetbundleName"));
        ("updated_at", Timestamp now) ]
  end.

(** The identity of the row of a source object: (region, item id). *)
Definition identity (self : HonorsSyncer) (d : list (string * pyval)) : key :=
  [ Plain (PStr (server self)); Plain (field d "id") ].

(** A row that has an [updated_at] column, holding this timestamp. *)
Definition stamped (n : Z) (r : row) : Prop :=
  has_column "updated_at" r = true /\ row_get "updated_at" r = Timestamp n.


(** The three stages of a run return, with these counts, leaving [st3]. *)
Definition stages_return (w : world) (self : HonorsSyncer) (st : state)
  (n1 n2 n3 : nat) (st3 : state) : Prop :=
  exists st1 st2,
    sync_honors w self st = (Ok n1, st1) /\
    sync_bonds_honors w self st1 = (Ok n2, st2) /\
    sync_honor_groups w self st2 = (Ok n3, st3).

(** An exception is raised inside the [try] block of [run]: by the first
    stage, by a later stage once the earlier ones have returned, or by the
    commit once all three have. *)
Definition run_raises (w : world) (self : HonorsSyncer) (st : state) (e : exn) : Prop :=
  (exists st1, sync_honors w self st = (Raise e, st1)) \/
  (exists n1 st1 st2,
     sync_honors w self st = (Ok n1, st1) /\
     sync_bonds_honors w self st1 = (Raise e, st2)) \/
  (exists n1 st1 n2 st2 st3,
     sync_honors w self st = (Ok n1, st1) /\
     sync_bonds_honors w self st1 = (Ok n2, st2) /\
     sync_honor_groups w self st2 = (Raise e, st3)) \/
  (exists n1 n2 n3 st3 st4,
     stages_return w self st n1 n2 n3 st3 /\
     commit w st3 = (Raise e, st4)).

(** The URLs a trace requested, in order. *)
Fixpoint requests_of (tr : list event) : list string :=
  match tr with
  | [] => []
  | Request url :: tr' => url :: requests_of tr'
  | _ :: tr' => requests_of tr'
  end.

(** Number of [rollback] calls in a trace. *)
Fixpoint rollbacks (tr : list event) : nat :=
  match tr with
  | [] => 0
  | Rollback :: tr' => S (rollbacks tr')
  | _ :: tr' => rollbacks tr'
  end.

(** A trace of commands only. *)
Definition only_executes (tr : list event) : bool :=
  forallb (fun ev => match ev with Execute _ _ => true | _ => false end) tr.

(** The URLs one fetch of a file tries: the raw one, and the CDN one when
    the raw one ends in an exception the loop catches. *)
Definition attempts (w : world) (self : HonorsSyncer) (filename : string) : list string :=
  if is_failure (http_get w (RAW_URL_TEMPLATE (repo self) filename))
  then [ RAW_URL_TEMPLATE (repo self) filename; CDN_URL_TEMPLATE (repo self) filename ]
  else [ RAW_URL_TEMPLATE (repo self) filename ].

(** The six URLs of a syncer, in the order a run can reach them. *)
Definition candidate_urls (self : HonorsSyncer) : list string :=
  [ RAW_URL_TEMPLATE (repo self) "honors.json";
    CDN_URL_TEMPLATE (repo self) "honors.json";
    RAW_URL_TEMPLATE (repo self) "bondsHonors.json";
    CDN_URL_TEMPLATE (repo self) "bondsHonors.json";
    RAW_URL_TEMPLATE (repo self) "honorGroups.json";
    CDN_URL_TEMPLATE (repo self) "honorGroups.json" ].

(** The count of a relation in the summary of a run. *)
Definition count_of (rel : relation) (s : summary) : nat :=
  match rel with
  | Honors => res_honors s
  | BondsHonors => res_bonds_honors s
  | HonorGroups => res_honor_groups s
  end.

(** A JSON object. *)
Definition is_object (v : pyval) : bool :=
  match v with
  | PDict _ => true
  | _ => false
  end.

(** The state [psycopg2.connect] leaves when it returns. *)
Definition connected (database_url : string) (st : state) : state :=
  {| store := store st; txn := store st; trace := trace st ++ [Connect database_url] |}.

(* ================================================================== *)
(** * Sample data *)
(* ================================================================== *)

(** A syncer for the Japanese server, as [__init__] builds it. *)
Definition jp : HonorsSyncer := {| server := "jp"; repo := "haruki-sekai-master" |}.

(** A world whose hosts answer the listed URLs and no other, whose database
    accepts every command and whose clock reads [now]. *)
Definition serving (files : list (string * response)) (now : Z) : world :=
  {| http_get := fun url =>
       match assoc url files with
       | Some r => r
       | None => RequestFailed "no route to host"
       end;
     connect_fault := None;
     execute_fault := fun _ _ => None;
     commit_fault := None;
     current_timestamp := now |}.

(** The same world, with a commit that fails. *)
Definition failing_commit (w : world) (msg : string) : world :=
  {| http_get := http_get w;
     connect_fault := connect_fault w;
     execute_fault := execute_fault w;
     commit_fault := Some msg;
     current_timestamp := current_timestamp w |}.

Definition honors_url : string := RAW_URL_TEMPLATE (repo jp) "honors.json".
Definition bonds_honors_url : string := RAW_URL_TEMPLATE (repo jp) "bondsHonors.json".

(** The two objects of the end-to-end example of the specification. *)
Definition honor_1 : list (string * pyval) :=
  [ ("id", PInt 1); ("seq", PInt 1); ("groupId", PInt 10);
    ("honorRarity", PStr "low"); ("name", PStr "A");
    ("assetbundleName", PStr "a"); ("levels", PList []) ].

Definition honor_2 : list (string * pyval) :=
  [ ("id", PInt 2); ("seq", PInt 2); ("groupId", PInt 11);
    ("honorRarity", PStr "high"); ("name", PStr "B");
    ("assetbundleName", PStr "b"); ("levels", PList [PDict [("level", PInt 1)]]) ].

(** An object that names its identity and nothing else. *)
Definition bare_honor_2 : list (string * pyval) := [ ("id", PInt 2) ].

Definition empty_database : database :=
  {| honors := []; bonds_honors := []; honor_groups := [] |}.

(** A machine with empty tables, and one whose [honors] table holds the rows
    of the two sample objects, written at time 5. *)
Definition fresh : state :=
  {| store := empty_database; txn := empty_database; trace := [] |}.

Definition synced_database : database :=
  {| honors := [ row_of_object Honors jp honor_1 5; row_of_object Honors jp honor_2 5 ];
     bonds_honors := [];
     honor_groups := [] |}.

Definition synced : state :=
  {| store := synced_database; txn := synced_database; trace := [] |}.

(** Worlds for the sample runs: the two objects served at a given time; the
    second object served bare; a good [honors.json] next to a
    [bondsHonors.json] whose array holds a number; no host in reach; an
    empty [honors.json]. *)
Definition snapshot_two (now : Z) : world :=
  serving [ (honors_url, Body (PList [PDict honor_1; PDict honor_2])) ] now.

Definition resync_bare : world :=
  serving [ (honors_url, Body (PList [PDict bare_honor_2])) ] 20.

Definition broken_bonds : world :=
  serving [ (honors_url, Body (PList [PDict honor_1]));
            (bonds_honors_url, Body (PList [PInt 3])) ] 10.

Definition offline : world := serving [] 1.

Definition empty_honors : world := serving [ (honors_url, Body (PList [])) ] 1.

(** The environment of a complete configuration for the Japanese server. *)
Definition jp_environ : environ :=
  {| DATABASE_URL := Some "postgresql://sekai"; SERVER := Some "jp" |}.

(** What [resp.json()] raises on a body of two thousand opening brackets:
    the body is not valid JSON, and the decoder runs out of stack before it
    finds that out. *)
Definition too_deep : exn :=
  RecursionError "maximum recursion depth exceeded while decoding a JSON array from a unicode string".

(** A world where the raw URL of [honors.json] serves such a body while the
    CDN serves the first sample object; and one where both URLs of
    [honors.json] serve such a body. *)
Definition deep_nesting : world :=
  serving [ (honors_url, Uncaught too_deep);
            (CDN_URL_TEMPLATE (repo jp) "honors.json", Body (PList [PDict honor_1])) ] 1.


(** The float 1.5, and a world whose raw URL serves it as [honors.json]. *)
Definition one_and_a_half : float := SpecFloat.S754_finite false 3 (-1).

Definition raw_float : world := serving [ (honors_url, Body (PFloat one_and_a_half)) ] 1.

(* ================================================================== *)
(** * Lemmas *)
(* ================================================================== *)

(** ** Traces *)

Lemma commits_app (a b : list event) : commits (a ++ b) = commits a + commits b.
Proof.
  induction a as [|ev a IH]; simpl; [reflexivity|].
  destruct ev; simpl; rewrite IH; reflexivity.
Qed.

Lemma submitted_app (rel : relation) (a b : list event) :
  submitted rel (a ++ b) = submitted rel a + submitted rel b.
Proof.
  induction a as [|ev a IH]; simpl; [reflexivity|].
  destruct ev; simpl; rewrite IH; lia.
Qed.

(** ** The fetcher *)

(** [fetch_json], by the ends of its two requests. *)
Lemma fetch_json_unfold (w : world) (self : HonorsSyncer) (filename : string) (st : state) :
  fetch_json w self filename st =
  let primary := RAW_URL_TEMPLATE (repo self) filename in
  let secondary := CDN_URL_TEMPLATE (repo self) filename in
  let st1 := emit (Request primary) st in
  let st2 := emit (Request secondary) st1 in
  match http_get w primary with
  | Body data => (sized data, st1)
  | Uncaught e => (Raise e, st1)
  | RequestFailed _ | StatusError _ | InvalidJson _ =>
      match http_get w secondary with
      | Body data => (sized data, st2)
      | Uncaught e => (Raise e, st2)
      | RequestFailed _ | StatusError _ | InvalidJson _ => (Ok PNone, st2)
      end
  end.
Proof.
  unfold fetch_json, fetch_loop, bind, tell, lift, ret, sized; simpl.
  destruct (http_get w (RAW_URL_TEMPLATE (repo self) filename)) as [m|m|m|e|d];
    try (destruct (http_get w (CDN_URL_TEMPLATE (repo self) filename)) as [m'|m'|m'|e'|d'];
         try reflexivity; destruct (py_len d'); reflexivity).
  destruct (py_len d); reflexivity.
Qed.

Lemma urls_differ (repo file : string) :
  (RAW_URL_TEMPLATE repo file =? CDN_URL_TEMPLATE repo file) = false.
Proof. reflexivity. Qed.

(** The effects of a fetch are its requests: the tables are not touched
    and nothing is sent to the database. *)
Lemma fetch_json_frame (w : world) (self : HonorsSyncer) (filename : string)
  (st st' : state) (r : result pyval) :
  fetch_json w self filename st = (r, st') ->
  store st' = store st /\ txn st' = txn st /\
  commits (trace st') = commits (trace st) /\
  forall rel, submitted rel (trace st') = submitted rel (trace st).
Proof.
  rewrite fetch_json_unfold; cbv zeta.
  destruct (http_get w (RAW_URL_TEMPLATE (repo self) filename));
    try destruct (http_get w (CDN_URL_TEMPLATE (repo self) filename));
    intros H; inversion H; subst; simpl;
    repeat rewrite commits_app; simpl;
    (repeat split; try lia; intros rel; repeat rewrite submitted_app; simpl; lia).
Qed.


(** ** The region resolver and the entry point *)

Lemma outside_enumeration (code : string) :
  ~ In code ["cn"; "jp"; "en"; "tw"; "kr"] -> assoc code SERVERS = None.
Proof.
  intros H; unfold SERVERS; cbn [assoc].
  repeat match goal with
  | |- context [?s =? code] =>
      destruct (String.eqb_spec s code) as [E|_];
      [exfalso; apply H; rewrite <- E; simpl; tauto|]
  end.
  reflexivity.
Qed.

(** C8.  [main] exits with status 0 exactly when the configuration is
    complete, the syncer is built and its run reports success; a missing (or
    empty) connection string, an unknown region and a run that reports
    failure each give status 1. *)
Theorem exit_status_contract :
  forall (w : world) (env : environ) (st : state),
    let code := fst (main w env st) in
    let server := environ_get (SERVER env) "cn" in
    (code = 0%Z <->
     exists url syncer st1,
       DATABASE_URL env = Some url /\ (url =? "") = false /\
       HonorsSyncer_init w url server st = (Ok syncer, st1) /\
       success (fst (run w syncer st1)) = true) /\
    (DATABASE_URL env = None \/ DATABASE_URL env = Some "" -> code = 1%Z) /\
    (assoc server SERVERS = None -> code = 1%Z) /\
    (forall url syncer st1,
       DATABASE_URL env = Some url -> (url =? "") = false ->
       HonorsSyncer_init w url server st = (Ok syncer, st1) ->
       success (fst (run w syncer st1)) = false -> code = 1%Z).
Proof.
  intros w env st code server; subst code server.
  unfold main.
  destruct (DATABASE_URL env) as [url|].
  2:{ simpl. repeat split; try discriminate; auto.
      intros (u & s & st1 & H & _); discriminate. }
  destruct (url =? "") eqn:Eurl.
  { simpl. repeat split; try discriminate; auto.
    intros (u & s & st1 & H & Hu & _). inversion H; subst. congruence. }
  destruct (assoc (environ_get (SERVER env) "cn") SERVERS) as [r|] eqn:Esrv.
  2:{ simpl. repeat split; try discriminate; auto.
      intros (u & s & st1 & H & Hu & Hi & _).
      unfold HonorsSyncer_init in Hi. rewrite Esrv in Hi. discriminate. }
  destruct (HonorsSyncer_init w url (environ_get (SERVER env) "cn") st)
    as [[syncer|e] st1] eqn:Einit.
  2:{ simpl. repeat split; try discriminate; auto.
      intros (u & s & st1' & H & Hu & Hi & _). inversion H; subst.
      rewrite Einit in Hi. discriminate. }
  destruct (run w syncer st1) as [results st2] eqn:Erun.
  assert (Hsame : forall u s st1',
             Some url = Some u ->
             HonorsSyncer_init w u (environ_get (SERVER env) "cn") st = (Ok s, st1') ->
             success (fst (run w s st1')) = success results).
  { intros u s st1' H Hi. inversion H; subst.
    rewrite Einit in Hi. inversion Hi; subst. rewrite Erun. reflexivity. }
  destruct (success results) eqn:Es; simpl; repeat split; try discriminate; auto.
  - intros _. exists url, syncer, st1. rewrite Erun; simpl. auto.
  - intros [H|H]; [discriminate|]. inversion H; subst. discriminate.
  - intros u s st1' H _ Hi Hs. rewrite (Hsame u s st1' H Hi) in Hs. discriminate.
  - intros (u & s & st1' & H & Hu & Hi & Hs).
    rewrite (Hsame u s st1' H Hi) in Hs. discriminate.
Qed.

(** ** Pages and commands *)

Lemma chunks_concat {A : Type} (size : nat) (l : list A) :
  forall (room : nat) (page : list A),
    List.concat (chunks size room page l) = rev page ++ l.
Proof.
  induction l as [|x l IH]; intros room page; simpl.
  - destruct page; simpl; rewrite ?app_nil_r; reflexivity.
  - destruct room as [|[|m]]; simpl; rewrite IH; simpl;
      rewrite <- ?app_assoc; reflexivity.
Qed.

Lemma paginate_concat {A : Type} (page_size : nat) (l : list A) :
  List.concat (paginate page_size l) = l.
Proof. unfold paginate. rewrite chunks_concat. reflexivity. Qed.

Lemma get_set_table (rel : relation) (t : table) (db : database) :
  get_table rel (set_table rel t db) = t.
Proof. destruct rel; reflexivity. Qed.

Lemma get_set_table_other (rel rel' : relation) (t : table) (db : database) :
  relation_eqb rel rel' = false ->
  get_table rel (set_table rel' t db) = get_table rel db.
Proof. destruct rel, rel'; simpl; intros H; try discriminate; reflexivity. Qed.

Lemma into_sql_of (rel : relation) : into (sql_of rel) = rel.
Proof. destruct rel; reflexivity. Qed.

Lemma upsert_all_app (sql : upsert_sql) (now : Z) (rs1 rs2 : list row) (t : table) :
  upsert_all sql now (rs1 ++ rs2) t = upsert_all sql now rs2 (upsert_all sql now rs1 t).
Proof. unfold upsert_all. apply fold_left_app. Qed.

(** A command that goes through has upserted its rows one after the other. *)
Lemma exec_rows_ok (sql : upsert_sql) (now : Z) (rs : list row) :
  forall (touched : list key) (t t' : table),
    exec_rows sql now rs touched t = Ok t' -> t' = upsert_all sql now rs t.
Proof.
  induction rs as [|r rs IH]; intros touched t t' H; simpl in H.
  - inversion H; reflexivity.
  - destruct (existsb is_null (key_of sql r)); [discriminate|].
    destruct (key_mem (key_of sql r) touched); [discriminate|].
    apply IH in H. exact H.
Qed.

Lemma fill_some (template : list template_item) (now : Z) :
  forall (record vs : list sqlval),
    fill template record now = Some vs ->
    List.length record = placeholders template.
Proof.
  unfold placeholders.
  induction template as [|i template IH]; intros record vs H; simpl in *.
  - destruct record; [reflexivity|discriminate].
  - destruct i; simpl.
    + destruct record as [|v record]; [discriminate|].
      destruct (fill template record now) eqn:E; [|discriminate].
      simpl. f_equal. eapply IH; eassumption.
    + destruct (fill template record now) eqn:E; [|discriminate].
      eapply IH; eassumption.
Qed.

(** The three templates: their placeholders, then the timestamp. *)
Lemma fill_template_of (rel : relation) (record vs : list sqlval) (now : Z) :
  fill (template_of rel) record now = Some vs -> vs = record ++ [Timestamp now].
Proof.
  intros H. pose proof (fill_some _ _ _ _ H) as L.
  destruct rel; cbv [template_of honors_template bonds_honors_template
                     honor_groups_template placeholders filter List.length] in L;
    repeat (destruct record as [|? record]; [discriminate L|]);
    destruct record; try discriminate L;
    simpl in H; inversion H; reflexivity.
Qed.

Lemma values_of_proposed (rel : relation) (now : Z) (page : list (list sqlval)) :
  forall rows,
    values_of (sql_of rel) (template_of rel) now page = Ok rows ->
    rows = proposed (sql_of rel) now page.
Proof.
  induction page as [|record page IH]; intros rows H; simpl in H.
  - inversion H; reflexivity.
  - destruct (fill (template_of rel) record now) as [vs|] eqn:E; [|discriminate].
    destruct (values_of (sql_of rel) (template_of rel) now page) as [rows'|] eqn:E';
      [|discriminate].
    inversion H; subst. apply fill_template_of in E. subst vs.
    simpl. f_equal. apply IH. reflexivity.
Qed.

Lemma proposed_app (sql : upsert_sql) (now : Z) (a b : list (list sqlval)) :
  proposed sql now (a ++ b) = proposed sql now a ++ proposed sql now b.
Proof. unfold proposed. apply map_app. Qed.

(** What one command leaves behind, whether it goes through or not. *)
Lemma execute_frame (w : world) (rel : relation) (page : list (list sqlval))
  (st st' : state) (r : result unit) :
  execute w (sql_of rel) (template_of rel) page st = (r, st') ->
  store st' = store st /\
  trace st' = trace st ++ [Execute rel (List.length page)] /\
  (forall rel', relation_eqb rel' rel = false ->
                get_table rel' (txn st') = get_table rel' (txn st)) /\
  (r = Ok tt ->
   get_table rel (txn st') =
   upsert_all (sql_of rel) (current_timestamp w)
     (proposed (sql_of rel) (current_timestamp w) page) (get_table rel (txn st))).
Proof.
  unfold execute. rewrite into_sql_of.
  destruct (execute_fault w rel page).
  { intros H; inversion H; subst; simpl. repeat split; auto. discriminate. }
  destruct (values_of (sql_of rel) (template_of rel) (current_timestamp w) page)
    as [rows|e] eqn:Ev.
  2:{ intros H; inversion H; subst; simpl. repeat split; auto. discriminate. }
  destruct (exec_rows (sql_of rel) (current_timestamp w) rows []
              (get_table rel (txn (emit (Execute rel (List.length page)) st))))
    as [t|e] eqn:Ex.
  2:{ intros H; inversion H; subst; simpl. repeat split; auto. discriminate. }
  intros H; inversion H; subst; simpl. repeat split; auto.
  - intros rel' Hne. apply get_set_table_other. exact Hne.
  - intros _. rewrite get_set_table. apply exec_rows_ok in Ex.
    apply values_of_proposed in Ev. subst rows. exact Ex.
Qed.

Lemma execute_pages_frame (w : world) (rel : relation) (pages : list (list (list sqlval))) :
  forall (st st' : state) (r : result unit),
    execute_pages w (sql_of rel) (template_of rel) pages st = (r, st') ->
    store st' = store st /\
    commits (trace st') = commits (trace st) /\
    (forall rel', relation_eqb rel' rel = false ->
                  get_table rel' (txn st') = get_table rel' (txn st) /\
                  submitted rel' (trace st') = submitted rel' (trace st)) /\
    (r = Ok tt ->
     submitted rel (trace st') = submitted rel (trace st) + List.length (List.concat pages) /\
     get_table rel (txn st') =
     upsert_all (sql_of rel) (current_timestamp w)
       (proposed (sql_of rel) (current_timestamp w) (List.concat pages))
       (get_table rel (txn st))).
Proof.
  induction pages as [|page pages IH]; intros st st' r H; simpl in H.
  - unfold ret in H. inversion H; subst. repeat split; auto.
  - unfold bind in H.
    destruct (execute w (sql_of rel) (template_of rel) page st) as [[[]|e] st1] eqn:E1.
    + apply execute_frame in E1. destruct E1 as (S1 & T1 & O1 & U1).
      apply IH in H. destruct H as (S2 & C2 & O2 & U2).
      rewrite S2, C2, S1, T1, commits_app. simpl.
      split; [reflexivity|]. split; [lia|]. split.
      * intros rel' Hne. destruct (O2 rel' Hne) as [G2 B2].
        rewrite G2, B2, T1, submitted_app, (O1 rel' Hne). simpl.
        rewrite Hne. split; [reflexivity|lia].
      * intros Hr. destruct (U2 Hr) as [B2 G2].
        rewrite B2, T1, submitted_app. simpl.
        assert (Hrefl : relation_eqb rel rel = true) by (destruct rel; reflexivity).
        rewrite Hrefl. rewrite length_app. split; [lia|].
        rewrite G2, (U1 eq_refl), proposed_app, upsert_all_app. reflexivity.
    + inversion H; subst.
      apply execute_frame in E1. destruct E1 as (S1 & T1 & O1 & U1).
      rewrite S1, T1, commits_app. simpl.
      split; [reflexivity|]. split; [lia|]. split; [|discriminate].
      intros rel' Hne. rewrite submitted_app, (O1 rel' Hne). simpl.
      rewrite Hne. split; [reflexivity|lia].
Qed.

(** ** The stages *)

Lemma stage_sync_with (rel : relation) (w : world) (self : HonorsSyncer) :
  stage rel w self =
  sync_with (snapshot_file rel) (mapper_of rel self) (sql_of rel) (template_of rel) w self.
Proof. destruct rel; reflexivity. Qed.

(** A stage, step by step. *)
Lemma stage_unfold (rel : relation) (w : world) (self : HonorsSyncer) (st : state) :
  stage rel w self st =
  match fetch_json w self (snapshot_file rel) st with
  | (Raise e, st0) => (Raise e, st0)
  | (Ok data, st0) =>
      if truthy data then
        match py_iter data with
        | Raise e => (Raise e, st0)
        | Ok items =>
            match collect (mapper_of rel self) items with
            | Raise e => (Raise e, st0)
            | Ok records =>
                match execute_values w (sql_of rel) (template_of rel) records st0 with
                | (Ok _, st1) => (Ok (List.length records), st1)
                | (Raise e, st1) => (Raise e, st1)
                end
            end
        end
      else (Ok 0, st0)
  end.
Proof.
  rewrite stage_sync_with. unfold sync_with, bind, lift, ret.
  destruct (fetch_json w self (snapshot_file rel) st) as [[data|e] st0]; [|reflexivity].
  destruct (truthy data); [|reflexivity]. simpl.
  destruct (py_iter data) as [items|e]; [|reflexivity].
  destruct (collect (mapper_of rel self) items) as [records|e]; [|reflexivity].
  destruct (execute_values w (sql_of rel) (template_of rel) records st0) as [[[]|e] st1];
    reflexivity.
Qed.

(** Whatever a stage returns or raises, it publishes nothing, commits
    nothing and leaves the other relations alone. *)
Lemma stage_frame (rel : relation) (w : world) (self : HonorsSyncer)
  (st st' : state) (r : result nat) :
  stage rel w self st = (r, st') ->
  store st' = store st /\
  commits (trace st') = commits (trace st) /\
  forall rel', relation_eqb rel' rel = false ->
               get_table rel' (txn st') = get_table rel' (txn st) /\
               submitted rel' (trace st') = submitted rel' (trace st).
Proof.
  rewrite stage_unfold.
  destruct (fetch_json w self (snapshot_file rel) st) as [[data|e] st0] eqn:Ef;
    apply fetch_json_frame in Ef; destruct Ef as (S0 & T0 & C0 & B0).
  2:{ intros H; inversion H; subst. rewrite T0. auto. }
  destruct (truthy data).
  2:{ intros H; inversion H; subst. rewrite T0. auto. }
  destruct (py_iter data) as [items|e].
  2:{ intros H; inversion H; subst. rewrite T0. auto. }
  destruct (collect (mapper_of rel self) items) as [records|e].
  2:{ intros H; inversion H; subst. rewrite T0. auto. }
  unfold execute_values.
  destruct (execute_pages w (sql_of rel) (template_of rel) (paginate 100 records) st0)
    as [[[]|e] st1] eqn:Ex;
    apply execute_pages_frame in Ex; destruct Ex as (S1 & C1 & O1 & _);
    intros H; inversion H; subst;
    (split; [congruence|]; split; [congruence|]);
    intros rel' Hne; destruct (O1 rel' Hne) as [G B];
    rewrite G, B, T0, B0; auto.
Qed.

(** A stage that returns has either found nothing to write, or has sent
    every record it built and upserted the rows they propose. *)
Lemma stage_returns (rel : relation) (w : world) (self : HonorsSyncer)
  (st st' : state) (n : nat) :
  stage rel w self st = (Ok n, st') ->
  submitted rel (trace st') = submitted rel (trace st) + n /\
  exists data st0,
    fetch_json w self (snapshot_file rel) st = (Ok data, st0) /\
    ((truthy data = false /\ n = 0 /\ st' = st0) \/
     (truthy data = true /\
      exists items records,
        py_iter data = Ok items /\
        collect (mapper_of rel self) items = Ok records /\
        n = List.length records /\
        get_table rel (txn st') =
        upsert_all (sql_of rel) (current_timestamp w)
          (proposed (sql_of rel) (current_timestamp w) records)
          (get_table rel (txn st)))).
Proof.
  rewrite stage_unfold.
  destruct (fetch_json w self (snapshot_file rel) st) as [[data|e] st0] eqn:Ef;
    [|discriminate].
  pose proof (fetch_json_frame _ _ _ _ _ _ Ef) as (S0 & T0 & C0 & B0).
  destruct (truthy data) eqn:Et.
  2:{ intros H; inversion H; subst. rewrite B0. split; [lia|].
      exists data, st'. split; [reflexivity|]. left. auto. }
  destruct (py_iter data) as [items|e] eqn:Ei; [|discriminate].
  destruct (collect (mapper_of rel self) items) as [records|e] eqn:Ec; [|discriminate].
  unfold execute_values.
  destruct (execute_pages w (sql_of rel) (template_of rel) (paginate 100 records) st0)
    as [[[]|e] st1] eqn:Ex; [|discriminate].
  apply execute_pages_frame in Ex. destruct Ex as (S1 & C1 & O1 & U1).
  destruct (U1 eq_refl) as [B1 G1]. rewrite paginate_concat in B1, G1.
  intros H; inversion H; subst. clear H U1. rewrite B1, B0. split; [reflexivity|].
  exists data, st0. split; [reflexivity|]. right. split; [exact Et|].
  exists items, records. rewrite G1, T0. auto.
Qed.

(** C9.  For each of the three stages, a fetch that yields an empty JSON
    array and a fetch that yields nothing (both sources failed) end the
    stage the same way: it returns 0 in the state the fetch left, so no
    command is sent and the tables of the transaction are as before. *)
Theorem empty_snapshot_is_skipped :
  forall (rel : relation) (w : world) (self : HonorsSyncer)
         (st st0 : state) (data : pyval),
    fetch_json w self (snapshot_file rel) st = (Ok data, st0) ->
    data = PList [] \/ data = PNone ->
    stage rel w self st = (Ok 0, st0) /\
    txn st0 = txn st /\ store st0 = store st /\
    submitted rel (trace st0) = submitted rel (trace st).
Proof.
  intros rel w self st st0 data Hf Hd.
  rewrite stage_unfold, Hf.
  apply fetch_json_frame in Hf. destruct Hf as (S0 & T0 & _ & B0).
  destruct Hd; subst data; simpl; auto.
Qed.

(** ** The run *)

Lemma commit_frame (w : world) (st st' : state) (r : result unit) :
  commit w st = (r, st') ->
  commits (trace st') = S (commits (trace st)) /\
  match r with
  | Ok _ => commit_fault w = None /\ store st' = txn st
  | Raise e => commit_fault w = Some (str e) /\ store st' = store st
  end.
Proof.
  unfold commit. destruct (commit_fault w) as [msg|];
    intros H; inversion H; subst; simpl; rewrite commits_app; simpl;
    (split; [lia|auto]).
Qed.

(** The stages of a run and the commit, in the order [run] meets them. *)
Ltac run_steps w self st :=
  unfold run;
  destruct (sync_honors w self st) as [[?n1|?e1] ?st1] eqn:?E1;
  [ match goal with
    | E : sync_honors w self st = (Ok _, ?s1) |- _ =>
        destruct (sync_bonds_honors w self s1) as [[?n2|?e2] ?st2] eqn:?E2;
        [ match goal with
          | E' : sync_bonds_honors w self s1 = (Ok _, ?s2) |- _ =>
              destruct (sync_honor_groups w self s2) as [[?n3|?e3] ?st3] eqn:?E3;
              [ match goal with
                | E'' : sync_honor_groups w self s2 = (Ok _, ?s3) |- _ =>
                    destruct (commit w s3) as [[[]|?e4] ?st4] eqn:?E4
                end | ]
          end | ]
    end | ].

Ltac frames :=
  repeat match goal with
  | E : sync_honors _ _ _ = _ |- _ => apply (stage_frame Honors) in E; destruct E as (? & ? & ?)
  | E : sync_bonds_honors _ _ _ = _ |- _ =>
      apply (stage_frame BondsHonors) in E; destruct E as (? & ? & ?)
  | E : sync_honor_groups _ _ _ = _ |- _ =>
      apply (stage_frame HonorGroups) in E; destruct E as (? & ? & ?)
  | E : commit _ _ = _ |- _ => apply commit_frame in E; destruct E as (? & ? & ?)
  end.

(** C1.  If a stage or the commit raises [e], the run ends with the
    committed tables exactly as they were before it, the open transaction
    reset to them, [str e] in the summary's error field and the success flag
    false.  A run calls [commit] only after its three stages have
    returned. *)
Theorem run_is_atomic :
  forall (w : world) (self : HonorsSyncer) (st : state),
    let s := fst (run w self st) in
    let st' := snd (run w self st) in
    (forall e,
       run_raises w self st e ->
       store st' = store st /\ txn st' = store st /\
       error s = Some (str e) /\ success s = false) /\
    (commits (trace st') = commits (trace st) \/
     exists n1 n2 n3 st3, stages_return w self st n1 n2 n3 st3).
Proof.
  intros w self st s st'; subst s st'. split.
  - intros e [(s1 & H1)|[(n1 & s1 & s2 & H1 & H2)|[(n1 & s1 & n2 & s2 & s3 & H1 & H2 & H3)
                |(n1 & n2 & n3 & s3 & s4 & (s1 & s2 & H1 & H2 & H3) & H4)]]];
      unfold run; rewrite H1; try rewrite H2; try rewrite H3; try rewrite H4; simpl;
      frames; repeat split; congruence.
  - run_steps w self st; simpl.
    + right. exists n1, n2, n3, st3, st1, st2. auto.
    + right. exists n1, n2, n3, st3, st1, st2. auto.
    + left. rewrite commits_app; simpl. frames. lia.
    + left. rewrite commits_app; simpl. frames. lia.
    + left. rewrite commits_app; simpl. frames. lia.
Qed.




(** C10.  The summary of a run has its success flag true exactly when its
    error field is [None].  When a stage or the commit raises, the counts of
    the stages that had returned stay in the summary, each the number of
    rows its stage sent, although the run ends with the committed tables as
    they were before it. *)
Theorem summary_invariants :
  forall (w : world) (self : HonorsSyncer) (st : state),
    let s := fst (run w self st) in
    let st' := snd (run w self st) in
    (success s = true <-> error s = None) /\
    (forall n1 st1 e st2,
       sync_honors w self st = (Ok n1, st1) ->
       sync_bonds_honors w self st1 = (Raise e, st2) ->
       res_honors s = n1 /\
       submitted Honors (trace st1) = submitted Honors (trace st) + n1 /\
       store st' = store st) /\
    (forall n1 st1 n2 st2 e st3,
       sync_honors w self st = (Ok n1, st1) ->
       sync_bonds_honors w self st1 = (Ok n2, st2) ->
       sync_honor_groups w self st2 = (Raise e, st3) ->
       res_honors s = n1 /\ res_bonds_honors s = n2 /\
       submitted Honors (trace st1) = submitted Honors (trace st) + n1 /\
       submitted BondsHonors (trace st2) = submitted BondsHonors (trace st1) + n2 /\
       store st' = store st) /\
    (forall n1 n2 n3 st3 e st4,
       stages_return w self st n1 n2 n3 st3 ->
       commit w st3 = (Raise e, st4) ->
       res_honors s = n1 /\ res_bonds_honors s = n2 /\ res_honor_groups s = n3 /\
       submitted Honors (trace st3) = submitted Honors (trace st) + n1 /\
       submitted BondsHonors (trace st3) = submitted BondsHonors (trace st) + n2 /\
       submitted HonorGroups (trace st3) = submitted HonorGroups (trace st) + n3 /\
       store st' = store st).
Proof.
  intros w self st s st'; subst s st'.
  split; [|split; [|split]].
  - run_steps w self st; simpl; split; intros H; try discriminate; reflexivity.
  - intros n1 st1 e st2 H1 H2.
    pose proof (stage_returns Honors _ _ _ _ _ H1) as [B1 _].
    unfold run. rewrite H1, H2. simpl. frames. repeat split; congruence.
  - intros n1 st1 n2 st2 e st3 H1 H2 H3.
    pose proof (stage_returns Honors _ _ _ _ _ H1) as [B1 _].
    pose proof (stage_returns BondsHonors _ _ _ _ _ H2) as [B2 _].
    unfold run. rewrite H1, H2, H3. simpl. frames. repeat split; congruence.
  - intros n1 n2 n3 st3 e st4 (st1 & st2 & H1 & H2 & H3) H4.
    pose proof (stage_returns Honors _ _ _ _ _ H1) as [B1 _].
    pose proof (stage_returns BondsHonors _ _ _ _ _ H2) as [B2 _].
    pose proof (stage_returns HonorGroups _ _ _ _ _ H3) as [B3 _].
    unfold run. rewrite H1, H2, H3, H4. simpl.
    pose proof (stage_frame Honors _ _ _ _ _ H1) as (S1 & _ & O1).
    pose proof (stage_frame BondsHonors _ _ _ _ _ H2) as (S2 & _ & O2).
    pose proof (stage_frame HonorGroups _ _ _ _ _ H3) as (S3 & _ & O3).
    apply commit_frame in H4. destruct H4 as (_ & _ & S4).
    destruct (O2 Honors eq_refl) as [_ X21].
    destruct (O3 Honors eq_refl) as [_ X31].
    destruct (O3 BondsHonors eq_refl) as [_ X32].
    destruct (O1 BondsHonors eq_refl) as [_ X12].
    destruct (O1 HonorGroups eq_refl) as [_ X13].
    destruct (O2 HonorGroups eq_refl) as [_ X23].
    repeat split; try congruence; lia.
Qed.

(** ** The record mappers *)

Lemma field_missing (d : list (string * pyval)) (k : string) :
  assoc k d = None -> field d k = PNone.
Proof. unfold field. intros H. rewrite H. reflexivity. Qed.

Lemma levels_missing (d : list (string * pyval)) :
  assoc "levels" d = None -> levels_of d = PList [].
Proof. unfold levels_of. intros H. rewrite H. reflexivity. Qed.

(** C3, as the code has it.  On every JSON object each of the three
    mappers returns a record and does not raise; the record fills the
    placeholders of its template, and paired with the INSERT's column list
    it is [row_of_object]: each column holds the value of its source key.  A
    missing key gives NULL in its column, except [levels], whose column then
    holds an empty JSON array. *)
Theorem record_mappers_total :
  forall (rel : relation) (self : HonorsSyncer) (d : list (string * pyval)) (now : Z),
    (exists record,
       mapper_of rel self (PDict d) = Ok record /\
       fill (template_of rel) record now = Some (record ++ [Timestamp now]) /\
       combine (insert_columns (sql_of rel)) (record ++ [Timestamp now]) =
       row_of_object rel self d now) /\
    (forall k, assoc k d = None -> Plain (field d k) = sql_null) /\
    (assoc "levels" d = None -> Json (levels_of d) = Json (PList [])).
Proof.
  intros rel self d now.
  split; [|split].
  - destruct rel; eexists; (split; [reflexivity|]); split; reflexivity.
  - intros k H. rewrite (field_missing _ _ H). reflexivity.
  - intros H. rewrite (levels_missing _ H). reflexivity.
Qed.

(** ** Equality of values and keys *)

(** Induction on a value, with the hypothesis on every element of a list
    and on every value of a dict. *)
Lemma pyval_nested_ind (P : pyval -> Prop) :
  P PNone ->
  (forall b, P (PBool b)) ->
  (forall z, P (PInt z)) ->
  (forall f, P (PFloat f)) ->
  (forall s, P (PStr s)) ->
  (forall l, Forall P l -> P (PList l)) ->
  (forall d, Forall (fun kv => P (snd kv)) d -> P (PDict d)) ->
  forall v, P v.
Proof.
  intros HNone HBool HInt HFloat HStr HList HDict.
  fix IH 1. intros [| b | z | f | s | l | d].
  - exact HNone.
  - apply HBool.
  - apply HInt.
  - apply HFloat.
  - apply HStr.
  - apply HList. induction l as [|x l IHl]; constructor; [apply IH|exact IHl].
  - apply HDict. induction d as [|kv d IHd]; constructor; [apply IH|exact IHd].
Qed.

Lemma float_eqb_eq (a b : float) : float_eqb a b = true <-> a = b.
Proof.
  destruct a as [s | s | | s m e], b as [s' | s' | | s' m' e']; simpl;
    try (split; intros H; [discriminate H | inversion H]; fail);
    try (split; reflexivity).
  - rewrite Bool.eqb_true_iff. split; intros H; [subst|inversion H]; reflexivity.
  - rewrite Bool.eqb_true_iff. split; intros H; [subst|inversion H]; reflexivity.
  - rewrite !andb_true_iff, Bool.eqb_true_iff, Pos.eqb_eq, Z.eqb_eq.
    split; [intros [[-> ->] ->]; reflexivity | intros H; inversion H; auto].
Qed.

Lemma pyval_eqb_eq (a : pyval) : forall b, pyval_eqb a b = true <-> a = b.
Proof.
  induction a as [| x | x | x | x | l IH | d IH] using pyval_nested_ind;
    intros b; destruct b as [| y | y | y | y | l' | d']; simpl;
    try (split; intros H; [discriminate H | inversion H]; fail);
    try (split; reflexivity).
  - rewrite Bool.eqb_true_iff. split; intros H; [subst|inversion H]; reflexivity.
  - rewrite Z.eqb_eq. split; intros H; [subst|inversion H]; reflexivity.
  - rewrite float_eqb_eq. split; intros H; [subst|inversion H]; reflexivity.
  - rewrite String.eqb_eq. split; intros H; [subst|inversion H]; reflexivity.
  - revert l'. induction IH as [|u l Hu _ IHl]; intros [|v l']; simpl;
      try (split; intros H; [discriminate H | inversion H]; fail);
      try (split; reflexivity).
    rewrite andb_true_iff, Hu, IHl.
    split; [intros [-> H]; inversion H; reflexivity | intros H; inversion H; auto].
  - revert d'. induction IH as [|[k u] d Hu _ IHd]; intros [|[k' v] d']; simpl;
      try (split; intros H; [discriminate H | inversion H]; fail);
      try (split; reflexivity).
    simpl in Hu. rewrite !andb_true_iff, String.eqb_eq, Hu, IHd.
    split; [intros [[-> ->] H]; inversion H; reflexivity | intros H; inversion H; auto].
Qed.

Lemma sqlval_eqb_eq (a b : sqlval) : sqlval_eqb a b = true <-> a = b.
Proof.
  destruct a, b; simpl;
    try (split; intros H; [discriminate H | inversion H]; fail).
  - rewrite pyval_eqb_eq. split; intros H; [subst|inversion H]; reflexivity.
  - rewrite pyval_eqb_eq. split; intros H; [subst|inversion H]; reflexivity.
  - rewrite Z.eqb_eq. split; intros H; [subst|inversion H]; reflexivity.
Qed.

Lemma key_eqb_eq (a : key) : forall b, key_eqb a b = true <-> a = b.
Proof.
  induction a as [|x a IH]; intros [|y b]; simpl;
    try (split; intros H; [discriminate H | inversion H]; fail);
    try (split; reflexivity).
  rewrite andb_true_iff, sqlval_eqb_eq, IH.
  split; [intros [-> ->]; reflexivity | intros H; inversion H; auto].
Qed.

Lemma key_eqb_refl (k : key) : key_eqb k k = true.
Proof. apply key_eqb_eq. reflexivity. Qed.

Lemma key_eqb_neq (a b : key) : a <> b -> key_eqb a b = false.
Proof.
  intros H. destruct (key_eqb a b) eqn:E; [|reflexivity].
  apply key_eqb_eq in E. contradiction.
Qed.

Lemma key_eq_dec (a b : key) : {a = b} + {a <> b}.
Proof.
  destruct (key_eqb a b) eqn:E.
  - left. apply key_eqb_eq. exact E.
  - right. intros H. apply key_eqb_eq in H. congruence.
Qed.

(** ** Rows under [DO UPDATE] *)

Lemma assoc_map_values {A B : Type} (g : string -> A -> B) (c : string)
  (l : list (string * A)) :
  assoc c (map (fun cv : string * A => let (c0, v) := cv in (c0, g c0 v)) l) =
  option_map (g c) (assoc c l).
Proof.
  induction l as [|[c0 v] l IH]; simpl; [reflexivity|].
  destruct (String.eqb_spec c0 c) as [->|_]; [reflexivity|exact IH].
Qed.

Lemma has_column_assoc (c : string) (r : row) :
  has_column c r = true <-> exists v, assoc c r = Some v.
Proof.
  unfold has_column. induction r as [|[c0 v] r IH]; simpl.
  - split; [discriminate|intros [v H]; discriminate].
  - destruct (c0 =? c); simpl; [split; eauto|exact IH].
Qed.

Section DoUpdate.
Variable sql : upsert_sql.

(** The SET clause assigns no column of the conflict target. *)
Hypothesis target_kept :
  forall c, In c (conflict_target sql) -> assoc c (update_set sql) = None.

Lemma do_update_map (now : Z) (x r : row) :
  do_update sql now x r =
  map (fun cv : string * sqlval => let (c, v) := cv in (c, assigned sql now r c v)) x.
Proof. reflexivity. Qed.

Lemma assoc_do_update (now : Z) (x r : row) (c : string) :
  assoc c (do_update sql now x r) = option_map (assigned sql now r c) (assoc c x).
Proof. rewrite do_update_map. apply assoc_map_values. Qed.

Lemma has_column_do_update (now : Z) (x r : row) (c : string) :
  has_column c (do_update sql now x r) = has_column c x.
Proof.
  unfold has_column, do_update.
  induction x as [|[c0 v] x IH]; simpl; [reflexivity|].
  rewrite IH. reflexivity.
Qed.

Lemma row_get_do_update (now : Z) (x r : row) (c : string) :
  has_column c x = true ->
  row_get c (do_update sql now x r) = assigned sql now r c (row_get c x).
Proof.
  intros H. apply has_column_assoc in H. destruct H as [v H].
  unfold row_get. rewrite assoc_do_update, H. reflexivity.
Qed.

Lemma row_get_do_update_kept (now : Z) (x r : row) (c : string) :
  assoc c (update_set sql) = None ->
  row_get c (do_update sql now x r) = row_get c x.
Proof.
  intros H. unfold row_get. rewrite assoc_do_update.
  destruct (assoc c x); simpl; [|reflexivity].
  unfold assigned. rewrite H. reflexivity.
Qed.

Lemma key_of_do_update (now : Z) (x r : row) :
  key_of sql (do_update sql now x r) = key_of sql x.
Proof.
  unfold key_of. apply map_ext_in. intros c Hc.
  apply row_get_do_update_kept. apply target_kept. exact Hc.
Qed.

Lemma do_update_twice (n n' : Z) (x r r' : row) :
  do_update sql n' (do_update sql n x r) r' = do_update sql n' x r'.
Proof.
  rewrite !do_update_map, map_map. apply map_ext. intros [c v].
  unfold assigned. destruct (assoc c (update_set sql)) as [[c'|]|]; reflexivity.
Qed.

(** *** One upsert *)

Lemma find_key_upsert_row (now : Z) (r : row) (k : key) (t : table) :
  find_key sql k (upsert_row sql now r t) =
  if key_eqb (key_of sql r) k
  then Some (match find_key sql k t with
             | Some x => do_update sql now x r
             | None => r
             end)
  else find_key sql k t.
Proof.
  unfold find_key. induction t as [|x t IH]; simpl.
  - destruct (key_eqb (key_of sql r) k); reflexivity.
  - destruct (key_eqb (key_of sql x) (key_of sql r)) eqn:Exr.
    + apply key_eqb_eq in Exr. simpl. rewrite key_of_do_update, Exr.
      destruct (key_eqb (key_of sql r) k); reflexivity.
    + simpl. destruct (key_eqb (key_of sql x) k) eqn:Exk.
      * apply key_eqb_eq in Exk. subst k.
        destruct (key_eqb (key_of sql r) (key_of sql x)) eqn:Erx; [|reflexivity].
        apply key_eqb_eq in Erx. rewrite Erx, key_eqb_refl in Exr. discriminate.
      * exact IH.
Qed.

Lemma present_upsert_row (now : Z) (r : row) (k : key) (t : table) :
  find_key sql k t <> None -> find_key sql k (upsert_row sql now r t) <> None.
Proof.
  intros H. rewrite find_key_upsert_row.
  destruct (key_eqb (key_of sql r) k); [discriminate|exact H].
Qed.

Lemma present_after_upsert_row (now : Z) (r : row) (t : table) :
  find_key sql (key_of sql r) (upsert_row sql now r t) <> None.
Proof. rewrite find_key_upsert_row, key_eqb_refl. discriminate. Qed.

(** Two upserts on different keys commute once the first key is there. *)
Lemma upsert_row_comm (n n' : Z) (r r' : row) (t : table) :
  key_of sql r <> key_of sql r' ->
  find_key sql (key_of sql r) t <> None ->
  upsert_row sql n' r' (upsert_row sql n r t) =
  upsert_row sql n r (upsert_row sql n' r' t).
Proof.
  intros Hne. unfold find_key. induction t as [|x t IH]; simpl; intros Hp.
  - contradiction.
  - destruct (key_eqb (key_of sql x) (key_of sql r)) eqn:Exr.
    + apply key_eqb_eq in Exr.
      assert (Exr' : key_eqb (key_of sql x) (key_of sql r') = false)
        by (apply key_eqb_neq; congruence).
      simpl. rewrite key_of_do_update, Exr'. simpl.
      rewrite Exr, key_eqb_refl. reflexivity.
    + destruct (key_eqb (key_of sql x) (key_of sql r')) eqn:Exr'; simpl.
      * rewrite Exr'. rewrite key_of_do_update, Exr. reflexivity.
      * rewrite Exr', Exr. f_equal. apply IH. exact Hp.
Qed.

(** An upsert hides an earlier one on the same key, the key being there. *)
Lemma upsert_row_absorb (n n' : Z) (r r' : row) (t : table) :
  key_of sql r = key_of sql r' ->
  find_key sql (key_of sql r) t <> None ->
  upsert_row sql n' r' (upsert_row sql n r t) = upsert_row sql n' r' t.
Proof.
  intros He. unfold find_key. induction t as [|x t IH]; simpl; intros Hp.
  - contradiction.
  - rewrite <- He.
    destruct (key_eqb (key_of sql x) (key_of sql r)) eqn:Exr; simpl.
    + rewrite key_of_do_update, <- He, Exr, do_update_twice. reflexivity.
    + rewrite <- He, Exr. f_equal. apply IH. exact Hp.
Qed.

(** A row that [DO UPDATE] maps to itself is upserted twice as once. *)
Lemma upsert_row_idem (n : Z) (r : row) (t : table) :
  do_update sql n r r = r ->
  upsert_row sql n r (upsert_row sql n r t) = upsert_row sql n r t.
Proof.
  intros Hr. induction t as [|x t IH]; simpl.
  - rewrite key_eqb_refl, Hr. reflexivity.
  - destruct (key_eqb (key_of sql x) (key_of sql r)) eqn:Exr; simpl.
    + rewrite key_of_do_update, Exr, do_update_twice. reflexivity.
    + rewrite Exr, IH. reflexivity.
Qed.
End DoUpdate.

(** ** A list of upserts *)

Section UpsertAll.
Variable sql : upsert_sql.
Hypothesis target_kept :
  forall c, In c (conflict_target sql) -> assoc c (update_set sql) = None.

Lemma upsert_all_cons (n : Z) (r : row) (rs : list row) (t : table) :
  upsert_all sql n (r :: rs) t = upsert_all sql n rs (upsert_row sql n r t).
Proof. reflexivity. Qed.

Lemma present_upsert_all (n : Z) (k : key) (rs : list row) :
  forall t, find_key sql k t <> None -> find_key sql k (upsert_all sql n rs t) <> None.
Proof.
  induction rs as [|r rs IH]; intros t H; [exact H|].
  rewrite upsert_all_cons. apply IH. apply present_upsert_row; assumption.
Qed.

Lemma upsert_all_comm (n n0 : Z) (r : row) (rs : list row) :
  ~ In (key_of sql r) (map (key_of sql) rs) ->
  forall u,
    find_key sql (key_of sql r) u <> None ->
    upsert_all sql n rs (upsert_row sql n0 r u) =
    upsert_row sql n0 r (upsert_all sql n rs u).
Proof.
  induction rs as [|r1 rs IH]; intros Hn u Hp; [reflexivity|].
  simpl in Hn. rewrite !upsert_all_cons.
  rewrite (upsert_row_comm sql target_kept n0 n r r1 u); [|intuition congruence|exact Hp].
  apply IH; [tauto|]. apply present_upsert_row; assumption.
Qed.

Lemma upsert_all_absorb (n n0 : Z) (r : row) (rs : list row) :
  In (key_of sql r) (map (key_of sql) rs) ->
  forall u,
    find_key sql (key_of sql r) u <> None ->
    upsert_all sql n rs (upsert_row sql n0 r u) = upsert_all sql n rs u.
Proof.
  induction rs as [|r1 rs IH]; intros Hi u Hp; [contradiction|].
  rewrite !upsert_all_cons.
  destruct (key_eq_dec (key_of sql r) (key_of sql r1)) as [E|N].
  - rewrite (upsert_row_absorb sql target_kept n0 n r r1 u E Hp). reflexivity.
  - rewrite (upsert_row_comm sql target_kept n0 n r r1 u N Hp).
    apply IH.
    + simpl in Hi. destruct Hi as [Hi|Hi]; [congruence|exact Hi].
    + apply present_upsert_row; assumption.
Qed.

(** Upserting a list of rows a second time changes nothing, when
    [DO UPDATE] maps each of them to itself. *)
Lemma upsert_all_idem (n : Z) (rs : list row) :
  (forall r, In r rs -> do_update sql n r r = r) ->
  forall t, upsert_all sql n rs (upsert_all sql n rs t) = upsert_all sql n rs t.
Proof.
  induction rs as [|r rs IH]; intros Hs t; [reflexivity|].
  assert (Hrs : forall r', In r' rs -> do_update sql n r' r' = r')
    by (intros r' Hr'; apply Hs; right; exact Hr').
  rewrite !upsert_all_cons.
  set (s := upsert_row sql n r t).
  assert (Hps : find_key sql (key_of sql r) s <> None)
    by (apply present_after_upsert_row; exact target_kept).
  assert (Hpf : find_key sql (key_of sql r) (upsert_all sql n rs s) <> None)
    by (apply present_upsert_all; exact Hps).
  destruct (in_dec key_eq_dec (key_of sql r) (map (key_of sql) rs)) as [Hi|Hn].
  - rewrite (upsert_all_absorb n n r rs Hi _ Hpf). apply IH. exact Hrs.
  - rewrite (upsert_all_comm n n r rs Hn _ Hpf).
    rewrite (IH Hrs s).
    rewrite <- (upsert_all_comm n n r rs Hn _ Hps).
    unfold s. rewrite (upsert_row_idem sql target_kept); [reflexivity|].
    apply Hs. left. reflexivity.
Qed.

(** The row of a key after a list of upserts whose last word on that key
    is [r]. *)
Lemma find_key_upsert_all_last (n : Z) (r : row) (pre post : list row) (t : table) :
  (forall r', In r' post -> key_of sql r' <> key_of sql r) ->
  find_key sql (key_of sql r) (upsert_all sql n (pre ++ r :: post) t) =
  Some (match find_key sql (key_of sql r) (upsert_all sql n pre t) with
        | Some x => do_update sql n x r
        | None => r
        end).
Proof.
  intros Hpost. rewrite upsert_all_app, upsert_all_cons.
  set (u := upsert_all sql n pre t).
  assert (G : forall v,
             find_key sql (key_of sql r) (upsert_all sql n post v) =
             find_key sql (key_of sql r) v).
  { induction post as [|r' post IHp]; intros v; [reflexivity|].
    rewrite upsert_all_cons, IHp.
    - rewrite (find_key_upsert_row sql target_kept).
      rewrite key_eqb_neq; [reflexivity|]. apply Hpost. left. reflexivity.
    - intros r'' H. apply Hpost. right. exact H. }
  rewrite G, (find_key_upsert_row sql target_kept), key_eqb_refl. reflexivity.
Qed.

(** A row that is there stays, with its columns, and keeps its value in
    every column the SET clause does not assign. *)
Lemma find_key_upsert_all_kept (n : Z) (k : key) (rs : list row) :
  forall t x,
    find_key sql k t = Some x ->
    exists x',
      find_key sql k (upsert_all sql n rs t) = Some x' /\
      (forall c, has_column c x' = has_column c x) /\
      (forall c, assoc c (update_set sql) = None -> row_get c x' = row_get c x).
Proof.
  induction rs as [|r rs IH]; intros t x Hx.
  - exists x. auto.
  - rewrite upsert_all_cons.
    pose proof (find_key_upsert_row sql target_kept n r k t) as F.
    rewrite Hx in F.
    destruct (key_eqb (key_of sql r) k).
    + destruct (IH _ _ F) as (x' & F' & C' & K').
      exists x'. split; [exact F'|]. split.
      * intros c. rewrite C'. apply has_column_do_update.
      * intros c Hc. rewrite (K' c Hc). apply row_get_do_update_kept. exact Hc.
    + apply IH. exact F.
Qed.
End UpsertAll.

(** ** Rows up to [updated_at] *)

Local Arguments String.eqb : simpl never.

Lemma hide_cons (c : string) (v : sqlval) (r : row) :
  hide_updated_at ((c, v) :: r) =
  (if c =? "updated_at" then (c, sql_null) else (c, v)) :: hide_updated_at r.
Proof. reflexivity. Qed.

Lemma row_get_hide (c : string) (r : row) :
  c <> "updated_at" -> row_get c (hide_updated_at r) = row_get c r.
Proof.
  intros Hc. unfold row_get. induction r as [|[c0 v] r IH]; [reflexivity|].
  rewrite hide_cons.
  destruct (String.eqb_spec c0 "updated_at") as [E|N]; simpl.
  - subst c0. destruct (String.eqb_spec "updated_at" c) as [E'|_]; [congruence|exact IH].
  - destruct (c0 =? c); [reflexivity|exact IH].
Qed.

Lemma row_get_hidden (r r' : row) (c : string) :
  hide_updated_at r = hide_updated_at r' -> c <> "updated_at" ->
  row_get c r = row_get c r'.
Proof.
  intros H Hc. rewrite <- (row_get_hide c r Hc), <- (row_get_hide c r' Hc), H.
  reflexivity.
Qed.

Section Hidden.
Variable sql : upsert_sql.
Hypothesis target_kept :
  forall c, In c (conflict_target sql) -> assoc c (update_set sql) = None.
(** [updated_at] is no column of the conflict target, *)
Hypothesis target_not_stamp :
  forall c, In c (conflict_target sql) -> c <> "updated_at".
(** and every other column the SET clause assigns takes an EXCLUDED
    column other than [updated_at]. *)
Hypothesis set_shape :
  forall c e, assoc c (update_set sql) = Some e ->
              c = "updated_at" \/ exists c', e = Excluded c' /\ c' <> "updated_at".

Lemma key_of_hidden (r r' : row) :
  hide_updated_at r = hide_updated_at r' -> key_of sql r = key_of sql r'.
Proof.
  intros H. unfold key_of. apply map_ext_in. intros c Hc.
  apply row_get_hidden; [exact H|]. apply target_not_stamp. exact Hc.
Qed.

Lemma assigned_hidden (n n' : Z) (r r' : row) (c : string) (v : sqlval) :
  hide_updated_at r = hide_updated_at r' -> c <> "updated_at" ->
  assigned sql n r c v = assigned sql n' r' c v.
Proof.
  intros H Hc. unfold assigned.
  destruct (assoc c (update_set sql)) as [e|] eqn:E; [|reflexivity].
  destruct (set_shape c e E) as [->|(c' & -> & Hc')]; [congruence|].
  apply row_get_hidden; assumption.
Qed.

Lemma hide_do_update (n n' : Z) (r r' : row) :
  hide_updated_at r = hide_updated_at r' ->
  forall x x',
    hide_updated_at x = hide_updated_at x' ->
    hide_updated_at (do_update sql n x r) = hide_updated_at (do_update sql n' x' r').
Proof.
  intros Hr. induction x as [|[c v] x IH]; intros [|[c' v'] x'] Hx;
    try discriminate Hx; [reflexivity|].
  rewrite !hide_cons in Hx.
  rewrite !do_update_map. cbn [map]. rewrite <- !do_update_map, !hide_cons.
  destruct (String.eqb_spec c "updated_at") as [E|N];
    destruct (String.eqb_spec c' "updated_at") as [E'|N'];
    inversion Hx; subst; try congruence.
  - f_equal. apply IH. assumption.
  - f_equal.
    + f_equal. apply assigned_hidden; assumption.
    + apply IH. assumption.
Qed.

Lemma hide_upsert_row (n n' : Z) (r r' : row) :
  hide_updated_at r = hide_updated_at r' ->
  forall t t',
    map hide_updated_at t = map hide_updated_at t' ->
    map hide_updated_at (upsert_row sql n r t) =
    map hide_updated_at (upsert_row sql n' r' t').
Proof.
  intros Hr. induction t as [|x t IH]; intros [|x' t'] Ht;
    try discriminate Ht; simpl.
  - rewrite Hr. reflexivity.
  - simpl in Ht. inversion Ht as [[Hx Ht']].
    rewrite (key_of_hidden x x' Hx), (key_of_hidden r r' Hr).
    destruct (key_eqb (key_of sql x') (key_of sql r')); simpl.
    + rewrite Ht'. f_equal. apply hide_do_update; assumption.
    + rewrite Hx. f_equal. apply IH. exact Ht'.
Qed.

Lemma hide_upsert_all (n n' : Z) (rs rs' : list row) :
  map hide_updated_at rs = map hide_updated_at rs' ->
  forall t t',
    map hide_updated_at t = map hide_updated_at t' ->
    map hide_updated_at (upsert_all sql n rs t) =
    map hide_updated_at (upsert_all sql n' rs' t').
Proof.
  revert rs'. induction rs as [|r rs IH]; intros [|r' rs'] Hrs t t' Ht;
    try discriminate Hrs; [exact Ht|].
  simpl in Hrs. inversion Hrs as [[Hr Hrs']].
  rewrite !upsert_all_cons. apply IH; [exact Hrs'|].
  apply hide_upsert_row; assumption.
Qed.

(** *** The timestamp of the rows a list of upserts touches *)

Hypothesis stamp_set : assoc "updated_at" (update_set sql) = Some CurrentTimestamp.




End Hidden.

(** ** The three statements *)

Lemma target_kept_sql (rel : relation) :
  forall c, In c (conflict_target (sql_of rel)) -> assoc c (update_set (sql_of rel)) = None.
Proof.
  destruct rel; intros c [<-|[<-|[]]]; reflexivity.
Qed.

Lemma target_not_stamp_sql (rel : relation) :
  forall c, In c (conflict_target (sql_of rel)) -> c <> "updated_at".
Proof.
  destruct rel; intros c [<-|[<-|[]]]; discriminate.
Qed.

(** Each assignment of a SET clause is [col = EXCLUDED.col], or
    [updated_at = CURRENT_TIMESTAMP]. *)
Lemma set_clause_sql (rel : relation) :
  forall c e,
    assoc c (update_set (sql_of rel)) = Some e ->
    (e = Excluded c /\ c <> "updated_at") \/ (e = CurrentTimestamp /\ c = "updated_at").
Proof.
  intros c e.
  destruct rel; cbn [sql_of update_set honors_sql bonds_honors_sql honor_groups_sql assoc];
    repeat match goal with
    | |- context [?s =? c] =>
        destruct (String.eqb_spec s c) as [<-|_];
        [intros H; inversion H; subst;
         first [left; split; [reflexivity|discriminate] | right; split; reflexivity]|]
    end;
    discriminate.
Qed.

Lemma set_shape_sql (rel : relation) :
  forall c e,
    assoc c (update_set (sql_of rel)) = Some e ->
    c = "updated_at" \/ exists c', e = Excluded c' /\ c' <> "updated_at".
Proof.
  intros c e H. destruct (set_clause_sql rel c e H) as [[-> Hc]|[_ ->]].
  - right. exists c. auto.
  - left. reflexivity.
Qed.


(** The SET clause assigns every column of the INSERT that is not in the
    conflict target. *)
Lemma set_clause_covers (rel : relation) :
  map fst (update_set (sql_of rel)) =
  filter (fun c => negb (existsb (String.eqb c) (conflict_target (sql_of rel))))
    (insert_columns (sql_of rel)).
Proof. destruct rel; reflexivity. Qed.

(** ** The rows of a snapshot *)

Lemma mapper_dict (rel : relation) (self : HonorsSyncer) (item : pyval)
  (record : list sqlval) (now : Z) :
  mapper_of rel self item = Ok record ->
  exists d,
    item = PDict d /\
    combine (insert_columns (sql_of rel)) (record ++ [Timestamp now]) =
    row_of_object rel self d now.
Proof.
  destruct item as [| | | | | |d]; try (destruct rel; discriminate).
  intros H. exists d. split; [reflexivity|].
  destruct rel; inversion H; reflexivity.
Qed.

Lemma collect_rows (rel : relation) (self : HonorsSyncer) (now : Z) (items : list pyval) :
  forall records,
    collect (mapper_of rel self) items = Ok records ->
    List.length records = List.length items /\
    exists ds,
      items = map PDict ds /\
      proposed (sql_of rel) now records = map (fun d => row_of_object rel self d now) ds.
Proof.
  induction items as [|item items IH]; intros records H; simpl in H.
  - inversion H. split; [reflexivity|]. exists []. split; reflexivity.
  - destruct (mapper_of rel self item) as [record|] eqn:Em; [|discriminate].
    destruct (collect (mapper_of rel self) items) as [records'|] eqn:Ec; [|discriminate].
    simpl in H. inversion H; subst.
    destruct (IH _ eq_refl) as (L & ds & -> & P).
    destruct (mapper_dict _ _ _ _ now Em) as (d & -> & R).
    split; [simpl; rewrite L; reflexivity|].
    exists (d :: ds). split; [reflexivity|].
    unfold proposed in *. simpl. rewrite P, R. reflexivity.
Qed.

Lemma key_of_row_of_object (rel : relation) (self : HonorsSyncer)
  (d : list (string * pyval)) (now : Z) :
  key_of (sql_of rel) (row_of_object rel self d now) = identity self d.
Proof. destruct rel; reflexivity. Qed.

Lemma row_of_object_self_update (rel : relation) (self : HonorsSyncer)
  (d : list (string * pyval)) (now : Z) :
  do_update (sql_of rel) now (row_of_object rel self d now) (row_of_object rel self d now) =
  row_of_object rel self d now.
Proof. destruct rel; reflexivity. Qed.

Lemma row_of_object_hidden (rel : relation) (self : HonorsSyncer)
  (d : list (string * pyval)) (n n' : Z) :
  hide_updated_at (row_of_object rel self d n) = hide_updated_at (row_of_object rel self d n').
Proof. destruct rel; reflexivity. Qed.

Lemma row_of_object_stamped (rel : relation) (self : HonorsSyncer)
  (d : list (string * pyval)) (now : Z) :
  stamped now (row_of_object rel self d now).
Proof. destruct rel; split; reflexivity. Qed.


(** What a stage that returns has made of its relation, by the objects of
    the snapshot it fetched. *)
Lemma stage_upserts (rel : relation) (w : world) (self : HonorsSyncer)
  (st st' : state) (n : nat) :
  stage rel w self st = (Ok n, st') ->
  exists data st0,
    fetch_json w self (snapshot_file rel) st = (Ok data, st0) /\
    ((truthy data = false /\ n = 0 /\
      get_table rel (txn st') = get_table rel (txn st)) \/
     (truthy data = true /\
      exists ds,
        data = PList (map PDict ds) /\ n = List.length ds /\
        get_table rel (txn st') =
        upsert_all (sql_of rel) (current_timestamp w)
          (map (fun d => row_of_object rel self d (current_timestamp w)) ds)
          (get_table rel (txn st)))).
Proof.
  intros H. destruct (stage_returns _ _ _ _ _ _ H) as (_ & data & st0 & Hf & Hc).
  exists data, st0. split; [exact Hf|].
  destruct Hc as [(Ht & -> & ->)|(Ht & items & records & Hi & Hco & -> & Hg)].
  - left. apply fetch_json_frame in Hf. destruct Hf as (_ & T0 & _).
    rewrite T0. auto.
  - right. split; [exact Ht|].
    destruct (collect_rows rel self (current_timestamp w) items records Hco)
      as (L & ds & -> & P).
    exists ds. rewrite Hg, P, L, length_map. repeat split.
    destruct data as [| | | |s|l|d]; simpl in Hi; try discriminate; inversion Hi; subst.
    + exfalso. destruct s as [|a s]; [discriminate Ht|].
      destruct ds; discriminate.
    + reflexivity.
    + exfalso. destruct d as [|kv d]; [discriminate Ht|].
      destruct ds; discriminate.
Qed.

Lemma map_PDict_inj (a : list (list (string * pyval))) :
  forall b, map PDict a = map PDict b -> a = b.
Proof.
  induction a as [|x a IH]; intros [|y b] H; try discriminate H; [reflexivity|].
  simpl in H. inversion H. f_equal. apply IH. assumption.
Qed.


(** ** Idempotence and replacement *)


(** C2, as the code has it.  When a stage returns and the snapshot holds an
    object whose identity already has a row (the object being the last of
    the snapshot with that identity), the row is still there afterwards,
    with the same columns: every column the SET clause assigns, which is
    every column of the INSERT outside the conflict target, holds the value
    the object proposes for it, and every other column keeps its value.  A
    key missing from the object puts NULL in its column, except [levels],
    whose column then holds an empty JSON array. *)
Theorem resync_overwrites :
  forall (rel : relation) (w : world) (self : HonorsSyncer) (st st' : state) (n : nat)
         (pre post : list pyval) (d : list (string * pyval)) (x : row),
    stage rel w self st = (Ok n, st') ->
    fst (fetch_json w self (snapshot_file rel) st) = Ok (PList (pre ++ PDict d :: post)) ->
    (forall d', In (PDict d') post -> field d' "id" <> field d "id") ->
    find_key (sql_of rel) (identity self d) (get_table rel (txn st)) = Some x ->
    let new := row_of_object rel self d (current_timestamp w) in
    (exists y,
       find_key (sql_of rel) (identity self d) (get_table rel (txn st')) = Some y /\
       (forall c, has_column c y = has_column c x) /\
       (forall c e, assoc c (update_set (sql_of rel)) = Some e ->
                    has_column c x = true -> row_get c y = row_get c new) /\
       (forall c, assoc c (update_set (sql_of rel)) = None -> row_get c y = row_get c x)) /\
    map fst (update_set (sql_of rel)) =
    filter (fun c => negb (existsb (String.eqb c) (conflict_target (sql_of rel))))
      (insert_columns (sql_of rel)) /\
    (forall k, assoc k d = None -> Plain (field d k) = sql_null) /\
    (assoc "levels" d = None -> Json (levels_of d) = Json (PList [])).
Proof.
  intros rel w self st st' n pre post d x H Hf Hpost Hx new.
  split; [|split; [apply set_clause_covers|split]].
  - destruct (stage_upserts _ _ _ _ _ _ H) as (data & s0 & F & C).
    rewrite F in Hf. simpl in Hf. inversion Hf; subst data. clear Hf.
    destruct C as [(T & _)|(_ & ds & E & _ & G)].
    { destruct pre; discriminate T. }
    inversion E as [E']. symmetry in E'.
    apply map_eq_app in E'. destruct E' as (dpre & dtail & -> & Epre & Etail).
    destruct dtail as [|d0 dpost]; [discriminate Etail|].
    simpl in Etail. inversion Etail as [[Ed Epost]]. subst d0.
    pose proof (target_kept_sql rel) as TK.
    rewrite map_app in G. cbn [map] in G. fold new in G.
    assert (Kn : key_of (sql_of rel) new = identity self d)
      by apply key_of_row_of_object.
    rewrite G, <- Kn.
    rewrite (find_key_upsert_all_last (sql_of rel) TK).
    2:{ intros r' Hr'. apply in_map_iff in Hr'. destruct Hr' as (d' & <- & Hd').
        rewrite Kn, key_of_row_of_object. unfold identity.
        intros K. inversion K as [K'].
        apply (Hpost d'); [|exact K'].
        rewrite <- Epost. apply in_map. exact Hd'. }
    rewrite Kn.
    destruct (find_key_upsert_all_kept (sql_of rel) TK (current_timestamp w)
                (identity self d)
                (map (fun d1 => row_of_object rel self d1 (current_timestamp w)) dpre)
                _ _ Hx)
      as (x' & Fx' & Cx' & Kx').
    rewrite Fx'. eexists. split; [reflexivity|]. split; [|split].
    + intros c. rewrite has_column_do_update. apply Cx'.
    + intros c e He Hc.
      rewrite row_get_do_update by (rewrite Cx'; exact Hc).
      unfold assigned. rewrite He.
      destruct (set_clause_sql rel c e He) as [[-> _]|[-> ->]]; [reflexivity|].
      symmetry. apply (row_of_object_stamped rel self d (current_timestamp w)).
    + intros c Hc.
      rewrite (row_get_do_update_kept (sql_of rel) (current_timestamp w) x' new c Hc).
      apply Kx'. exact Hc.
  - intros k Hk. rewrite (field_missing _ _ Hk). reflexivity.
  - intros Hl. rewrite (levels_missing _ Hl). reflexivity.
Qed.

(* ================================================================== *)
(** * The statements on the sample data *)
(* ================================================================== *)

(** C1 on a run whose second stage raises after the first has upserted a
    row: the committed tables are as before and the message is reported. *)
Lemma run_is_atomic_witness :
  store (snd (run broken_bonds jp synced)) = store synced /\
  error (fst (run broken_bonds jp synced)) = Some "'int' object has no attribute 'get'" /\
  success (fst (run broken_bonds jp synced)) = false.
Proof.
  pose proof (run_is_atomic broken_bonds jp synced) as H. cbv zeta in H.
  destruct H as [H _].
  destruct (H (AttributeError "'int' object has no attribute 'get'")) as (S & _ & E & F).
  - right; left.
    exists 1, (snd (sync_honors broken_bonds jp synced)),
      (snd (sync_bonds_honors broken_bonds jp (snd (sync_honors broken_bonds jp synced)))).
    split; vm_compute; reflexivity.
  - repeat split; assumption.
Defined.

(** The claim C2 fails on [levels]: the stored row of (jp, 2) has a
    non-empty [levels]; re-syncing an object with that identity and no
    [levels] key stores an empty JSON array there, which is neither SQL NULL
    nor JSON null, while the other missing keys do become NULL. *)
Lemma resync_missing_levels_not_null :
  assoc "levels" bare_honor_2 = None /\
  (exists x,
     find_key honors_sql (identity jp bare_honor_2) (honors (txn synced)) = Some x /\
     row_get "levels" x = Json (PList [PDict [("level", PInt 1)]])) /\
  fst (sync_honors resync_bare jp synced) = Ok 1 /\
  (exists y,
     find_key honors_sql (identity jp bare_honor_2)
       (honors (txn (snd (sync_honors resync_bare jp synced)))) = Some y /\
     row_get "levels" y = Json (PList []) /\
     null_like (row_get "levels" y) = false /\
     row_get "name" y = sql_null).
Proof.
  split; [reflexivity|]. split; [eexists; split; vm_compute; reflexivity|].
  split; [vm_compute; reflexivity|].
  eexists. split; [vm_compute; reflexivity|]. repeat split.
Qed.

(** C2 as amended, on the same re-sync. *)
Lemma resync_overwrites_witness :
  exists y,
    find_key honors_sql (identity jp bare_honor_2)
      (honors (txn (snd (sync_honors resync_bare jp synced)))) = Some y /\
    row_get "seq" y = sql_null /\
    row_get "levels" y = Json (PList []) /\
    row_get "updated_at" y = Timestamp 20 /\
    row_get "honor_id" y = Plain (PInt 2).
Proof.
  pose proof (resync_overwrites Honors resync_bare jp synced
                (snd (sync_honors resync_bare jp synced)) 1
                [] [] bare_honor_2 (row_of_object Honors jp honor_2 5)) as H.
  cbv zeta in H.
  destruct H as [(y & Fy & _ & Hset & Hkept) _].
  - vm_compute; reflexivity.
  - vm_compute; reflexivity.
  - intros d' [].
  - vm_compute; reflexivity.
  - exists y. split; [exact Fy|].
    rewrite (Hset "seq" _ eq_refl eq_refl), (Hset "levels" _ eq_refl eq_refl),
      (Hset "updated_at" _ eq_refl eq_refl), (Hkept "honor_id" eq_refl).
    repeat split.
Defined.

(** The claim C3 fails on [levels]: the key is missing from the empty
    object, and the mapper's record ends with an empty JSON array, which is
    neither SQL NULL nor JSON null. *)
Lemma mapper_missing_levels_not_null :
  assoc "levels" (@nil (string * pyval)) = None /\
  honors_record jp (PDict []) =
  Ok [ Plain (PStr "jp"); Plain PNone; Plain PNone; Plain PNone;
       Plain PNone; Plain PNone; Plain PNone; Json (PList []) ] /\
  null_like (Json (PList [])) = false.
Proof. repeat split. Qed.

(** C3 as amended, on an object that names its identity only. *)
Lemma record_mappers_total_witness :
  Plain (field bare_honor_2 "name") = sql_null /\
  Json (levels_of bare_honor_2) = Json (PList []).
Proof.
  destruct (record_mappers_total Honors jp bare_honor_2 20) as (_ & Hnull & Hlevels).
  split; [apply Hnull|apply Hlevels]; reflexivity.
Defined.






(** C8 on a complete configuration and a run that succeeds. *)
Lemma exit_status_contract_witness :
  fst (main (snapshot_two 10)
         {| DATABASE_URL := Some "postgresql://sekai"; SERVER := Some "jp" |} fresh) = 0%Z /\
  fst (main (snapshot_two 10) {| DATABASE_URL := None; SERVER := Some "jp" |} fresh) = 1%Z.
Proof.
  split.
  - pose proof (exit_status_contract (snapshot_two 10)
                  {| DATABASE_URL := Some "postgresql://sekai"; SERVER := Some "jp" |} fresh)
      as H.
    cbv zeta in H. destruct H as [[_ H] _]. apply H.
    exists "postgresql://sekai", jp,
      (snd (HonorsSyncer_init (snapshot_two 10) "postgresql://sekai" "jp" fresh)).
    repeat split; vm_compute; reflexivity.
  - pose proof (exit_status_contract (snapshot_two 10)
                  {| DATABASE_URL := None; SERVER := Some "jp" |} fresh) as H.
    cbv zeta in H. destruct H as (_ & H & _). apply H. left. reflexivity.
Defined.

(** C9 on an empty [honors.json]. *)
Lemma empty_snapshot_is_skipped_witness :
  stage Honors empty_honors jp synced =
  (Ok 0, snd (fetch_json empty_honors jp "honors.json" synced)) /\
  txn (snd (fetch_json empty_honors jp "honors.json" synced)) = txn synced.
Proof.
  destruct (empty_snapshot_is_skipped Honors empty_honors jp synced
              (snd (fetch_json empty_honors jp "honors.json" synced)) (PList []))
    as (H & T & _).
  - vm_compute; reflexivity.
  - left. reflexivity.
  - split; assumption.
Defined.

(** C10 on the run whose second stage raises: the count of the first stage
    stays in the summary. *)
Lemma summary_invariants_witness :
  res_honors (fst (run broken_bonds jp synced)) = 1 /\
  submitted Honors (trace (snd (sync_honors broken_bonds jp synced))) = 1 /\
  store (snd (run broken_bonds jp synced)) = store synced.
Proof.
  pose proof (summary_invariants broken_bonds jp synced) as H. cbv zeta in H.
  destruct H as (_ & H & _).
  apply (H 1 (snd (sync_honors broken_bonds jp synced))
           (AttributeError "'int' object has no attribute 'get'")
           (snd (sync_bonds_honors broken_bonds jp (snd (sync_honors broken_bonds jp synced)))));
    vm_compute; reflexivity.
Defined.

(** The end-to-end example of the specification: region jp and the two
    sample objects in [honors.json], on empty tables. *)
Example end_to_end_two_honors :
  res_honors (fst (run (snapshot_two 10) jp fresh)) = 2 /\
  success (fst (run (snapshot_two 10) jp fresh)) = true /\
  honors (store (snd (run (snapshot_two 10) jp fresh))) =
  [ row_of_object Honors jp honor_1 10; row_of_object Honors jp honor_2 10 ] /\
  map (key_of honors_sql) (honors (store (snd (run (snapshot_two 10) jp fresh)))) =
  [ [Plain (PStr "jp"); Plain (PInt 1)]; [Plain (PStr "jp"); Plain (PInt 2)] ].
Proof. repeat split; vm_compute; reflexivity. Qed.

(** A commit that fails after three stages that returned: the rows the
    first stage upserted are not published, and the counts stay. *)
Example commit_failure_publishes_nothing :
  let w := failing_commit (snapshot_two 10) "server closed the connection unexpectedly" in
  store (snd (run w jp fresh)) = empty_database /\
  res_honors (fst (run w jp fresh)) = 2 /\
  success (fst (run w jp fresh)) = false /\
  error (fst (run w jp fresh)) = Some "server closed the connection unexpectedly".
Proof. repeat split; vm_compute; reflexivity. Qed.

(** Two objects with the same identity in one page: the command is refused
    and the run fails. *)
Example duplicate_identity_in_a_page :
  let w := serving [ (honors_url, Body (PList [PDict honor_1; PDict honor_1])) ] 10 in
  error (fst (run w jp fresh)) =
  Some "ON CONFLICT DO UPDATE command cannot affect row a second time" /\
  store (snd (run w jp fresh)) = empty_database.
Proof. repeat split; vm_compute; reflexivity. Qed.

(** A body that is valid JSON but has no length is not caught by the
    fetcher: the run fails on the [TypeError] of [len]. *)
Example unsized_body_fails_the_run :
  let w := serving [ (honors_url, Body (PInt 3)) ] 10 in
  fst (fetch_json w jp "honors.json" fresh) =
  Raise (TypeError "object of type 'int' has no len()") /\
  error (fst (run w jp fresh)) = Some "object of type 'int' has no len()".
Proof. repeat split; vm_compute; reflexivity. Qed.

(** A body that is valid JSON but holds an integer literal longer than the
    interpreter's digit limit: [resp.json()] raises [ValueError], the CDN is
    not tried and the run fails with that message. *)
Example oversized_integer_fails_the_run :
  let e := ValueError "Exceeds the limit (4300 digits) for integer string conversion" in
  let w := serving [ (honors_url, Uncaught e) ] 10 in
  fetch_json w jp "honors.json" fresh =
  (Raise e, emit (Request honors_url) fresh) /\
  success (fst (run w jp fresh)) = false /\
  error (fst (run w jp fresh)) = Some (str e).
Proof. repeat split. Qed.

(* ================================================================== *)
(** * Further properties of the script *)
(* ================================================================== *)

(** ** Traces of the fetcher, the stages and the run *)

Lemma requests_of_app (a b : list event) :
  requests_of (a ++ b) = requests_of a ++ requests_of b.
Proof.
  induction a as [|ev a IH]; simpl; [reflexivity|].
  destruct ev; simpl; rewrite IH; reflexivity.
Qed.

Lemma rollbacks_app (a b : list event) : rollbacks (a ++ b) = rollbacks a + rollbacks b.
Proof.
  induction a as [|ev a IH]; simpl; [reflexivity|].
  destruct ev; simpl; rewrite IH; reflexivity.
Qed.

Lemma requests_of_requests (urls : list string) :
  requests_of (map Request urls) = urls.
Proof. induction urls as [|u urls IH]; simpl; [|rewrite IH]; reflexivity. Qed.

Lemma only_executes_quiet (d : list event) :
  only_executes d = true ->
  requests_of d = [] /\ rollbacks d = 0 /\ commits d = 0.
Proof.
  unfold only_executes. induction d as [|ev d IH]; simpl; [auto|].
  destruct ev; simpl; try discriminate. exact IH.
Qed.

Lemma only_executes_app (a b : list event) :
  only_executes a = true -> only_executes b = true -> only_executes (a ++ b) = true.
Proof.
  unfold only_executes. intros Ha Hb. rewrite forallb_app, Ha, Hb. reflexivity.
Qed.

(** The trace of a fetch: its attempts, and nothing else. *)
Lemma fetch_json_trace (w : world) (self : HonorsSyncer) (filename : string) (st : state) :
  trace (snd (fetch_json w self filename st)) =
  trace st ++ map Request (attempts w self filename).
Proof.
  rewrite fetch_json_unfold; cbv zeta. unfold attempts.
  destruct (http_get w (RAW_URL_TEMPLATE (repo self) filename));
    try destruct (http_get w (CDN_URL_TEMPLATE (repo self) filename));
    simpl; rewrite <- ?app_assoc; reflexivity.
Qed.

Lemma execute_pages_trace (w : world) (rel : relation) (pages : list (list (list sqlval))) :
  forall (st st' : state) (r : result unit),
    execute_pages w (sql_of rel) (template_of rel) pages st = (r, st') ->
    exists d, trace st' = trace st ++ d /\ only_executes d = true.
Proof.
  induction pages as [|page pages IH]; intros st st' r H; simpl in H.
  - unfold ret in H. inversion H; subst. exists []. rewrite app_nil_r. auto.
  - unfold bind in H.
    destruct (execute w (sql_of rel) (template_of rel) page st) as [[[]|e] st1] eqn:E1;
      apply execute_frame in E1; destruct E1 as (_ & T1 & _).
    + apply IH in H. destruct H as (d & Td & Od).
      exists (Execute rel (List.length page) :: d).
      rewrite Td, T1, <- app_assoc. split; [reflexivity|].
      unfold only_executes in *. simpl. exact Od.
    + inversion H; subst. exists [Execute rel (List.length page)]. auto.
Qed.

(** The trace of a stage: the attempts of its fetch, then commands. *)
Lemma stage_trace (rel : relation) (w : world) (self : HonorsSyncer)
  (st st' : state) (r : result nat) :
  stage rel w self st = (r, st') ->
  exists d,
    trace st' = trace st ++ map Request (attempts w self (snapshot_file rel)) ++ d /\
    only_executes d = true.
Proof.
  rewrite stage_unfold.
  pose proof (fetch_json_trace w self (snapshot_file rel) st) as T0.
  destruct (fetch_json w self (snapshot_file rel) st) as [[data|e] st0]; simpl in T0.
  2:{ intros H; inversion H; subst. exists []. rewrite app_nil_r. auto. }
  destruct (truthy data).
  2:{ intros H; inversion H; subst. exists []. rewrite app_nil_r. auto. }
  destruct (py_iter data) as [items|e].
  2:{ intros H; inversion H; subst. exists []. rewrite app_nil_r. auto. }
  destruct (collect (mapper_of rel self) items) as [records|e].
  2:{ intros H; inversion H; subst. exists []. rewrite app_nil_r. auto. }
  unfold execute_values.
  destruct (execute_pages w (sql_of rel) (template_of rel) (paginate 100 records) st0)
    as [[[]|e] st1] eqn:Ex;
    apply execute_pages_trace in Ex; destruct Ex as (d & Td & Od);
    intros H; inversion H; subst; exists d; rewrite Td, T0, <- app_assoc; auto.
Qed.

(** ** What a fetch can return *)

Lemma py_len_raises (data : pyval) (e : exn) :
  py_len data = Raise e ->
  e = TypeError ("object of type '" ++ type_name data ++ "' has no len()").
Proof. destruct data; simpl; intros H; inversion H; reflexivity. Qed.

Lemma sized_cases (data : pyval) :
  (exists n, py_len data = Ok n /\ sized data = Ok data) \/
  (exists e, py_len data = Raise e /\ sized data = Raise e).
Proof.
  unfold sized. destruct (py_len data) as [n|e]; [left|right]; eauto.
Qed.

Lemma sized_not_none (data : pyval) : sized data = Ok PNone -> False.
Proof. unfold sized. destruct data; simpl; intros H; discriminate H. Qed.

(** X1.  [fetch_json] returns [None] exactly when both URLs end in an
    exception that one of its [except] clauses catches.  When it returns
    anything else, that is the body of the first URL that yielded one, and
    it has a length.  When it raises, the first URL not passed over either
    ended in an exception of another class, which is the one raised, or
    yielded a body without a length, and the [TypeError] of [len] is raised.
    An uncaught exception of the raw URL is raised as it is; and once the raw
    URL has yielded a body or such an exception, the CDN URL is not
    requested. *)
Theorem fetch_json_outcomes :
  forall (w : world) (self : HonorsSyncer) (filename : string) (st : state),
    let primary := RAW_URL_TEMPLATE (repo self) filename in
    let secondary := CDN_URL_TEMPLATE (repo self) filename in
    let r := fst (fetch_json w self filename st) in
    (r = Ok PNone <-> both_fail w self filename = true) /\
    (forall data,
       r = Ok data -> both_fail w self filename = false ->
       (exists n, py_len data = Ok n) /\
       (http_get w primary = Body data \/
        (is_failure (http_get w primary) = true /\ http_get w secondary = Body data))) /\
    (forall e,
       r = Raise e ->
       (http_get w primary = Uncaught e \/
        (is_failure (http_get w primary) = true /\ http_get w secondary = Uncaught e)) \/
       exists data,
         py_len data = Raise e /\
         e = TypeError ("object of type '" ++ type_name data ++ "' has no len()") /\
         (http_get w primary = Body data \/
          (is_failure (http_get w primary) = true /\ http_get w secondary = Body data))) /\
    (forall e, http_get w primary = Uncaught e -> r = Raise e) /\
    (is_failure (http_get w primary) = false ->
     trace (snd (fetch_json w self filename st)) = trace st ++ [Request primary]).
Proof.
  intros w self filename st primary secondary r. subst r.
  rewrite fetch_json_unfold; cbv zeta. unfold both_fail. fold primary secondary.
  assert (Hbody : forall (d : pyval) (st1 : state),
            (fst (sized d, st1) = Ok PNone <-> false = true) /\
            (forall data, fst (sized d, st1) = Ok data ->
                          (exists n, py_len data = Ok n) /\ d = data) /\
            (forall e, fst (sized d, st1) = Raise e ->
                       py_len d = Raise e /\
                       e = TypeError ("object of type '" ++ type_name d ++ "' has no len()"))).
  { intros d st1. cbn [fst].
    destruct (sized_cases d) as [(n & L & S)|(e' & L & S)]; rewrite S.
    - split; [split; [intros H; inversion H; subst; apply sized_not_none in S; contradiction
                     |discriminate]|].
      split; [intros data H; inversion H; subst; eauto|]. intros e H; discriminate H.
    - split; [split; discriminate|].
      split; [intros data H; discriminate H|].
      intros e H; inversion H; subst. split; [exact L|]. apply py_len_raises; exact L. }
  destruct (http_get w primary) as [m|m|m|e0|d] eqn:Ep.
  5:{ destruct (Hbody d (emit (Request primary) st)) as (H1 & H2 & H3).
      cbn [is_failure andb]. split; [exact H1|]. split; [|split; [|split]].
      - intros data H _. destruct (H2 data H) as [Hn ->]. auto.
      - intros e H. destruct (H3 e H) as [L E]. right. exists d. auto.
      - intros e H. discriminate H.
      - intros _. reflexivity. }
  4:{ cbn [is_failure andb fst snd]. split; [split; discriminate|].
      split; [intros data H; discriminate H|]. split; [|split].
      - intros e H. inversion H; subst. left. left. reflexivity.
      - intros e H. inversion H; subst. reflexivity.
      - intros _. reflexivity. }
  all: destruct (http_get w secondary) as [m'|m'|m'|e'|d'] eqn:Es;
    cbn [is_failure andb fst snd].
  all: try (split; [split; reflexivity|];
            split; [intros data _ H; discriminate H|];
            split; [intros e H; discriminate H|];
            split; [intros e H; discriminate H|];
            intros H; discriminate H).
  all: try (split; [split; discriminate|];
            split; [intros data H; discriminate H|];
            split; [intros e H; inversion H; subst; left; right; auto|];
            split; [intros e H; discriminate H|];
            intros H; discriminate H).
  all: destruct (Hbody d' (emit (Request secondary) (emit (Request primary) st)))
         as (H1 & H2 & H3);
       (split; [exact H1|]); (split; [|split; [|split]]);
       [ intros data H _; destruct (H2 data H) as [Hn ->]; auto
       | intros e H; destruct (H3 e H) as [L E]; right; exists d'; auto
       | intros e H; discriminate H
       | intros H; discriminate H ].
Qed.

(** ** Snapshots that are not arrays of objects *)

Lemma mapper_object (rel : relation) (self : HonorsSyncer) (d : list (string * pyval)) :
  exists record, mapper_of rel self (PDict d) = Ok record.
Proof. destruct rel; eexists; reflexivity. Qed.

Lemma mapper_non_object (rel : relation) (self : HonorsSyncer) (item : pyval) :
  is_object item = false ->
  mapper_of rel self item =
  Raise (AttributeError ("'" ++ type_name item ++ "' object has no attribute 'get'")).
Proof. destruct item; try discriminate; intros _; destruct rel; reflexivity. Qed.

Lemma collect_non_object (rel : relation) (self : HonorsSyncer)
  (pre : list (list (string * pyval))) (bad : pyval) (post : list pyval) :
  is_object bad = false ->
  collect (mapper_of rel self) (map PDict pre ++ bad :: post) =
  Raise (AttributeError ("'" ++ type_name bad ++ "' object has no attribute 'get'")).
Proof.
  intros Hbad. induction pre as [|d pre IH]; cbn [map app collect].
  - rewrite (mapper_non_object rel self bad Hbad). reflexivity.
  - destruct (mapper_object rel self d) as [record ->]. cbn [rbind].
    rewrite IH. reflexivity.
Qed.

Lemma fetch_json_sized (w : world) (self : HonorsSyncer) (filename : string)
  (st st0 : state) (data : pyval) :
  fetch_json w self filename st = (Ok data, st0) ->
  data = PNone \/ exists n, py_len data = Ok n.
Proof.
  rewrite fetch_json_unfold; cbv zeta.
  assert (Hs : forall d s, (sized d, s) = (Ok data, st0) -> exists n, py_len data = Ok n).
  { intros d s H. unfold sized in H. destruct (py_len d) as [n|e] eqn:L; inversion H; subst.
    eauto. }
  destruct (http_get w (RAW_URL_TEMPLATE (repo self) filename));
    try destruct (http_get w (CDN_URL_TEMPLATE (repo self) filename));
    intros H; try (right; eapply Hs; exact H); left; inversion H; reflexivity.
Qed.

(** X2.  The records of a snapshot are all built before anything is sent.  When
    the array holds an element that is not an object, the stage raises the
    [AttributeError] of that element's [get], whatever precedes or follows
    it; when the body is not an array at all (a non-empty object or string),
    the loop runs over strings and the stage raises for [str].  In both
    cases the stage stops in the state its fetch left: no command is sent
    and the tables of the transaction are untouched. *)
Theorem stage_rejects_non_objects :
  forall (rel : relation) (w : world) (self : HonorsSyncer) (st st0 : state) (data : pyval),
    fetch_json w self (snapshot_file rel) st = (Ok data, st0) ->
    (forall pre bad post,
       data = PList (map PDict pre ++ bad :: post) -> is_object bad = false ->
       stage rel w self st =
       (Raise (AttributeError ("'" ++ type_name bad ++ "' object has no attribute 'get'")),
        st0)) /\
    (truthy data = true -> (forall l, data <> PList l) ->
     stage rel w self st =
     (Raise (AttributeError "'str' object has no attribute 'get'"), st0)) /\
    txn st0 = txn st /\ store st0 = store st /\
    submitted rel (trace st0) = submitted rel (trace st).
Proof.
  intros rel w self st st0 data Hf.
  pose proof (fetch_json_frame _ _ _ _ _ _ Hf) as (S0 & T0 & _ & B0).
  split; [|split; [|auto]].
  - intros pre bad post -> Hbad.
    rewrite stage_unfold, Hf.
    assert (Ht : truthy (PList (map PDict pre ++ bad :: post)) = true)
      by (destruct pre; reflexivity).
    rewrite Ht. cbn [py_iter]. rewrite (collect_non_object rel self pre bad post Hbad).
    reflexivity.
  - intros Ht Hl. rewrite stage_unfold, Hf, Ht.
    destruct (fetch_json_sized _ _ _ _ _ _ Hf) as [->|[n Hn]]; [discriminate Ht|].
    destruct data as [| | | |s|l|d]; try discriminate Hn.
    + destruct s as [|a s]; [discriminate Ht|].
      cbn [py_iter list_ascii_of_string map collect].
      rewrite (mapper_non_object rel self (PStr (String a EmptyString)) eq_refl).
      reflexivity.
    + exfalso. apply (Hl l). reflexivity.
    + destruct d as [|[k v] d]; [discriminate Ht|].
      cbn [py_iter map collect fst].
      rewrite (mapper_non_object rel self (PStr k) eq_refl). reflexivity.
Qed.

(** ** What a stage leaves alone *)

(** X3.  A stage, whether it returns or raises, publishes nothing, calls neither
    [commit] nor [rollback], and neither writes nor sends a row to any
    relation but its own. *)
Theorem stage_writes_own_relation_only :
  forall (rel : relation) (w : world) (self : HonorsSyncer) (st : state),
    let st' := snd (stage rel w self st) in
    store st' = store st /\
    commits (trace st') = commits (trace st) /\
    rollbacks (trace st') = rollbacks (trace st) /\
    forall rel', relation_eqb rel' rel = false ->
                 get_table rel' (txn st') = get_table rel' (txn st) /\
                 submitted rel' (trace st') = submitted rel' (trace st).
Proof.
  intros rel w self st st'. subst st'.
  destruct (stage rel w self st) as [r st1] eqn:E. cbn [snd].
  destruct (stage_trace _ _ _ _ _ _ E) as (d & Td & Od).
  destruct (stage_frame _ _ _ _ _ _ E) as (S & C & O).
  destruct (only_executes_quiet d Od) as (_ & Rd & _).
  split; [exact S|]. split; [exact C|]. split; [|exact O].
  rewrite Td, !rollbacks_app, Rd.
  assert (Hr : forall urls, rollbacks (map Request urls) = 0)
    by (induction urls; simpl; auto).
  rewrite Hr. lia.
Qed.

(** ** Rows outside the snapshot, and new rows *)

Lemma find_key_upsert_all_other (sql : upsert_sql) (n : Z) (k : key) (rs : list row) :
  (forall c, In c (conflict_target sql) -> assoc c (update_set sql) = None) ->
  (forall r, In r rs -> key_of sql r <> k) ->
  forall t, find_key sql k (upsert_all sql n rs t) = find_key sql k t.
Proof.
  intros TK. induction rs as [|r rs IH]; intros Hrs t; [reflexivity|].
  rewrite upsert_all_cons, IH by (intros r' Hr'; apply Hrs; right; exact Hr').
  rewrite (find_key_upsert_row sql TK), key_eqb_neq; [reflexivity|].
  apply Hrs. left. reflexivity.
Qed.

Lemma length_upsert_row (sql : upsert_sql) (n : Z) (r : row) (t : table) :
  List.length t <= List.length (upsert_row sql n r t).
Proof.
  induction t as [|x t IH]; simpl; [lia|].
  destruct (key_eqb (key_of sql x) (key_of sql r)); simpl; lia.
Qed.

Lemma length_upsert_all (sql : upsert_sql) (n : Z) (rs : list row) :
  forall t, List.length t <= List.length (upsert_all sql n rs t).
Proof.
  induction rs as [|r rs IH]; intros t; [simpl; lia|].
  rewrite upsert_all_cons. pose proof (length_upsert_row sql n r t).
  pose proof (IH (upsert_row sql n r t)). lia.
Qed.

(** X4.  A stage that returns deletes nothing.  Every identity that had a row
    still has one, with the same columns and the same value in every column
    the SET clause does not assign; the row of an identity that is not in
    the snapshot is the row it was, and so is every row of another server;
    the table has not become shorter. *)
Theorem stage_keeps_other_rows :
  forall (rel : relation) (w : world) (self : HonorsSyncer) (st st' : state) (n : nat),
    stage rel w self st = (Ok n, st') ->
    let before := get_table rel (txn st) in
    let after := get_table rel (txn st') in
    (forall k x,
       find_key (sql_of rel) k before = Some x ->
       exists x',
         find_key (sql_of rel) k after = Some x' /\
         (forall c, has_column c x' = has_column c x) /\
         (forall c, assoc c (update_set (sql_of rel)) = None ->
                    row_get c x' = row_get c x)) /\
    (forall k,
       (forall ds d,
          fst (fetch_json w self (snapshot_file rel) st) = Ok (PList (map PDict ds)) ->
          In d ds -> identity self d <> k) ->
       find_key (sql_of rel) k after = find_key (sql_of rel) k before) /\
    (forall s v,
       s <> server self ->
       find_key (sql_of rel) [Plain (PStr s); v] after =
       find_key (sql_of rel) [Plain (PStr s); v] before) /\
    List.length before <= List.length after.
Proof.
  intros rel w self st st' n H before after. subst before after.
  pose proof (target_kept_sql rel) as TK.
  destruct (stage_upserts _ _ _ _ _ _ H) as (data & s0 & F & C).
  destruct C as [(_ & _ & G)|(_ & ds & -> & _ & G)]; rewrite G.
  { split; [intros k x Hx; exists x; auto|]. auto. }
  assert (Hother : forall k,
             (forall d, In d ds -> identity self d <> k) ->
             find_key (sql_of rel) k
               (upsert_all (sql_of rel) (current_timestamp w)
                  (map (fun d => row_of_object rel self d (current_timestamp w)) ds)
                  (get_table rel (txn st))) =
             find_key (sql_of rel) k (get_table rel (txn st))).
  { intros k Hk. apply find_key_upsert_all_other; [exact TK|].
    intros r Hr. apply in_map_iff in Hr. destruct Hr as (d & <- & Hd).
    rewrite key_of_row_of_object. apply Hk. exact Hd. }
  split; [|split; [|split]].
  - intros k x Hx. apply find_key_upsert_all_kept; assumption.
  - intros k Hk. apply Hother. intros d Hd. apply (Hk ds d); [|exact Hd].
    rewrite F. reflexivity.
  - intros s v Hs. apply Hother. intros d _ E. unfold identity in E.
    inversion E. congruence.
  - apply length_upsert_all.
Qed.

Lemma row_of_object_update (rel : relation) (self : HonorsSyncer)
  (d d' : list (string * pyval)) (n n' : Z) :
  identity self d' = identity self d ->
  do_update (sql_of rel) n (row_of_object rel self d' n') (row_of_object rel self d n) =
  row_of_object rel self d n.
Proof.
  unfold identity. intros H. inversion H as [H'].
  destruct rel; unfold row_of_object; rewrite H'; reflexivity.
Qed.

(** A key that had no row has, after a list of upserts, either no row or
    one of the rows of the list, when [DO UPDATE] maps any two rows of the
    list with the same key to the later one. *)
Lemma find_key_upsert_all_fresh (sql : upsert_sql) (n : Z) (k : key) (t : table) :
  (forall c, In c (conflict_target sql) -> assoc c (update_set sql) = None) ->
  find_key sql k t = None ->
  forall rs,
    (forall r r', In r rs -> In r' rs -> key_of sql r = key_of sql r' ->
                  do_update sql n r r' = r') ->
    forall x, find_key sql k (upsert_all sql n rs t) = Some x ->
              In x rs /\ key_of sql x = k.
Proof.
  intros TK Ht rs. induction rs as [|r rs IH] using rev_ind; intros Hrs x Hx.
  - simpl in Hx. congruence.
  - rewrite upsert_all_app in Hx. cbn [upsert_all fold_left] in Hx.
    fold (upsert_all sql n rs t) in Hx.
    rewrite (find_key_upsert_row sql TK) in Hx.
    assert (Hrs' : forall r0 r', In r0 rs -> In r' rs -> key_of sql r0 = key_of sql r' ->
                                 do_update sql n r0 r' = r').
    { intros r0 r' H0 H' E. apply Hrs; auto using in_or_app. }
    destruct (key_eqb (key_of sql r) k) eqn:Ek.
    + apply key_eqb_eq in Ek.
      destruct (find_key sql k (upsert_all sql n rs t)) as [x0|] eqn:F0.
      * destruct (IH Hrs' x0 eq_refl) as [I0 K0].
        rewrite Hrs in Hx.
        -- inversion Hx; subst x. split; [apply in_or_app; right; left; reflexivity|exact Ek].
        -- apply in_or_app. left. exact I0.
        -- apply in_or_app. right. left. reflexivity.
        -- congruence.
      * inversion Hx; subst x. split; [apply in_or_app; right; left; reflexivity|exact Ek].
    + destruct (IH Hrs' x Hx) as [I0 K0]. split; [apply in_or_app; left; exact I0|exact K0].
Qed.

(** X5.  When a stage returns and the snapshot holds an object whose identity
    had no row (the object being the last of the snapshot with that
    identity), the identity has a row afterwards, and it is exactly the row
    the object proposes: the INSERT's columns, in order, with the
    transaction's timestamp. *)
Theorem new_identity_is_inserted :
  forall (rel : relation) (w : world) (self : HonorsSyncer) (st st' : state) (n : nat)
         (pre post : list pyval) (d : list (string * pyval)),
    stage rel w self st = (Ok n, st') ->
    fst (fetch_json w self (snapshot_file rel) st) = Ok (PList (pre ++ PDict d :: post)) ->
    (forall d', In (PDict d') post -> field d' "id" <> field d "id") ->
    find_key (sql_of rel) (identity self d) (get_table rel (txn st)) = None ->
    find_key (sql_of rel) (identity self d) (get_table rel (txn st')) =
    Some (row_of_object rel self d (current_timestamp w)).
Proof.
  intros rel w self st st' n pre post d H Hf Hpost Hnone.
  destruct (stage_upserts _ _ _ _ _ _ H) as (data & s0 & F & C).
  rewrite F in Hf. simpl in Hf. inversion Hf; subst data. clear Hf.
  destruct C as [(T & _)|(_ & ds & E & _ & G)].
  { destruct pre; discriminate T. }
  inversion E as [E']. symmetry in E'.
  apply map_eq_app in E'. destruct E' as (dpre & dtail & -> & Epre & Etail).
  destruct dtail as [|d0 dpost]; [discriminate Etail|].
  simpl in Etail. inversion Etail as [[Ed Epost]]. subst d0.
  pose proof (target_kept_sql rel) as TK.
  rewrite map_app in G. cbn [map] in G.
  set (now := current_timestamp w) in *.
  set (new := row_of_object rel self d now) in *.
  assert (Kn : key_of (sql_of rel) new = identity self d) by apply key_of_row_of_object.
  rewrite G, <- Kn.
  rewrite (find_key_upsert_all_last (sql_of rel) TK).
  2:{ intros r' Hr'. apply in_map_iff in Hr'. destruct Hr' as (d' & <- & Hd').
      rewrite Kn, key_of_row_of_object. unfold identity.
      intros K. inversion K as [K'].
      apply (Hpost d'); [|exact K'].
      rewrite <- Epost. apply in_map. exact Hd'. }
  rewrite Kn.
  destruct (find_key (sql_of rel) (identity self d)
              (upsert_all (sql_of rel) now
                 (map (fun d1 => row_of_object rel self d1 now) dpre)
                 (get_table rel (txn st)))) as [x|] eqn:Fx; [|reflexivity].
  apply (find_key_upsert_all_fresh (sql_of rel) now _ _ TK Hnone) in Fx.
  - destruct Fx as [Ix Kx]. apply in_map_iff in Ix. destruct Ix as (d' & <- & _).
    rewrite key_of_row_of_object in Kx.
    unfold new. rewrite (row_of_object_update rel self d d' now now Kx). reflexivity.
  - intros r r' Hr Hr' Ek.
    apply in_map_iff in Hr. destruct Hr as (d1 & <- & _).
    apply in_map_iff in Hr'. destruct Hr' as (d2 & <- & _).
    rewrite !key_of_row_of_object in Ek. apply row_of_object_update. exact Ek.
Qed.

(** ** The URLs of a run *)

Lemma append_inj_l (s a b : string) : (s ++ a)%string = (s ++ b)%string -> a = b.
Proof.
  induction s as [|c s IH]; simpl; intros H; [exact H|].
  inversion H. apply IH. assumption.
Qed.

Lemma url_file_inj (r f f' u : string) :
  u = RAW_URL_TEMPLATE r f \/ u = CDN_URL_TEMPLATE r f ->
  u = RAW_URL_TEMPLATE r f' \/ u = CDN_URL_TEMPLATE r f' ->
  f = f'.
Proof.
  assert (Hrc : forall a b, RAW_URL_TEMPLATE r a = CDN_URL_TEMPLATE r b -> False).
  { intros a b H. apply String.eqb_eq in H.
    assert (F : (RAW_URL_TEMPLATE r a =? CDN_URL_TEMPLATE r b) = false) by reflexivity.
    congruence. }
  unfold RAW_URL_TEMPLATE, CDN_URL_TEMPLATE in *.
  intros [-> | ->] [H|H].
  - do 3 apply append_inj_l in H. exact H.
  - exfalso. exact (Hrc _ _ H).
  - exfalso. symmetry in H. exact (Hrc _ _ H).
  - do 3 apply append_inj_l in H. exact H.
Qed.

Lemma attempts_cases (w : world) (self : HonorsSyncer) (f : string) :
  attempts w self f = [RAW_URL_TEMPLATE (repo self) f] \/
  attempts w self f = [RAW_URL_TEMPLATE (repo self) f; CDN_URL_TEMPLATE (repo self) f].
Proof. unfold attempts. destruct (is_failure _); auto. Qed.

Lemma attempts_in (w : world) (self : HonorsSyncer) (f u : string) :
  In u (attempts w self f) ->
  u = RAW_URL_TEMPLATE (repo self) f \/ u = CDN_URL_TEMPLATE (repo self) f.
Proof.
  destruct (attempts_cases w self f) as [-> | ->]; simpl; intuition.
Qed.

Lemma attempts_nodup (w : world) (self : HonorsSyncer) (f : string) :
  NoDup (attempts w self f).
Proof.
  destruct (attempts_cases w self f) as [-> | ->].
  - constructor; [intros []|constructor].
  - constructor; [|constructor; [intros []|constructor]].
    intros [H|[]]. apply String.eqb_eq in H.
    rewrite String.eqb_sym, urls_differ in H. discriminate.
Qed.

Lemma attempts_disjoint (w : world) (self : HonorsSyncer) (f f' u : string) :
  f <> f' -> In u (attempts w self f) -> ~ In u (attempts w self f').
Proof.
  intros Hne H H'. apply Hne.
  apply (url_file_inj (repo self) f f' u); apply (attempts_in w); assumption.
Qed.

Lemma attempts_run_nodup (w : world) (self : HonorsSyncer) :
  NoDup (attempts w self "honors.json" ++ attempts w self "bondsHonors.json" ++
         attempts w self "honorGroups.json").
Proof.
  apply NoDup_app; [apply attempts_nodup| |].
  - apply NoDup_app; [apply attempts_nodup|apply attempts_nodup|].
    intros u. apply attempts_disjoint. discriminate.
  - intros u H H'. apply in_app_or in H'. destruct H' as [H'|H'];
      revert H'; apply (attempts_disjoint w self "honors.json"); try exact H; discriminate.
Qed.

Lemma attempts_incl (w : world) (self : HonorsSyncer) (rel : relation) :
  incl (attempts w self (snapshot_file rel)) (candidate_urls self).
Proof.
  intros u H. apply attempts_in in H. unfold candidate_urls.
  destruct rel; simpl in *; intuition.
Qed.

Lemma attempts_length (w : world) (self : HonorsSyncer) (f : string) :
  1 <= List.length (attempts w self f) <= 2.
Proof. destruct (attempts_cases w self f) as [-> | ->]; simpl; lia. Qed.

(** The trace a stage adds: the attempts of its fetch, and commands. *)
Lemma stage_delta (rel : relation) (w : world) (self : HonorsSyncer)
  (st st' : state) (r : result nat) :
  stage rel w self st = (r, st') ->
  exists d,
    trace st' = trace st ++ d /\
    requests_of d = attempts w self (snapshot_file rel) /\
    rollbacks d = 0 /\ commits d = 0.
Proof.
  intros H. destruct (stage_trace _ _ _ _ _ _ H) as (d & T & O).
  destruct (only_executes_quiet d O) as (Q & R & C).
  exists (map Request (attempts w self (snapshot_file rel)) ++ d).
  split; [exact T|].
  rewrite requests_of_app, rollbacks_app, commits_app, requests_of_requests, Q, R, C.
  rewrite app_nil_r.
  assert (Hq : forall urls, rollbacks (map Request urls) = 0 /\ commits (map Request urls) = 0)
    by (induction urls; simpl; auto).
  destruct (Hq (attempts w self (snapshot_file rel))) as [-> ->]. auto.
Qed.

(** X6.  A run requests at least one URL and at most six, all among the two
    URLs of each of its three files, and never the same URL twice.  The
    files are reached in the order honors, bonds honors, honor groups, and a
    stage that raises ends the requests: the files after it are not
    fetched. *)
Theorem run_requests_each_url_once :
  forall (w : world) (self : HonorsSyncer) (st : state),
    exists l,
      requests_of (trace (snd (run w self st))) = requests_of (trace st) ++ l /\
      NoDup l /\ incl l (candidate_urls self) /\
      1 <= List.length l <= 6 /\
      (forall e st1,
         sync_honors w self st = (Raise e, st1) -> l = attempts w self "honors.json") /\
      (forall n1 st1 e st2,
         sync_honors w self st = (Ok n1, st1) ->
         sync_bonds_honors w self st1 = (Raise e, st2) ->
         l = attempts w self "honors.json" ++ attempts w self "bondsHonors.json") /\
      (forall n1 st1 n2 st2,
         sync_honors w self st = (Ok n1, st1) ->
         sync_bonds_honors w self st1 = (Ok n2, st2) ->
         l = attempts w self "honors.json" ++ attempts w self "bondsHonors.json" ++
             attempts w self "honorGroups.json").
Proof.
  intros w self st.
  pose proof (attempts_run_nodup w self) as ND.
  pose proof (attempts_incl w self Honors) as I1.
  pose proof (attempts_incl w self BondsHonors) as I2.
  pose proof (attempts_incl w self HonorGroups) as I3.
  pose proof (attempts_length w self "honors.json") as L1.
  pose proof (attempts_length w self "bondsHonors.json") as L2.
  pose proof (attempts_length w self "honorGroups.json") as L3.
  cbn [snapshot_file] in I1, I2, I3.
  set (a1 := attempts w self "honors.json") in *.
  set (a2 := attempts w self "bondsHonors.json") in *.
  set (a3 := attempts w self "honorGroups.json") in *.
  assert (ND12 : NoDup (a1 ++ a2))
    by (rewrite app_assoc in ND; apply NoDup_app_remove_r in ND; exact ND).
  assert (ND1 : NoDup a1) by (apply NoDup_app_remove_r in ND12; exact ND12).
  unfold run.
  destruct (sync_honors w self st) as [[n1|e1] st1] eqn:E1;
    destruct (stage_delta Honors _ _ _ _ _ E1) as (d1 & T1 & Q1 & _);
    cbn [snapshot_file] in Q1; fold a1 in Q1.
  2:{ exists a1. cbn [failed snd rollback emit trace].
      rewrite T1, !requests_of_app, Q1. cbn [requests_of].
      rewrite app_nil_r. repeat split; auto; try lia; intros; discriminate. }
  destruct (sync_bonds_honors w self st1) as [[n2|e2] st2] eqn:E2;
    destruct (stage_delta BondsHonors _ _ _ _ _ E2) as (d2 & T2 & Q2 & _);
    cbn [snapshot_file] in Q2; fold a2 in Q2.
  2:{ exists (a1 ++ a2). cbn [failed snd rollback emit trace].
      rewrite T2, T1, !requests_of_app, Q1, Q2. cbn [requests_of].
      rewrite app_nil_r, <- app_assoc.
      split; [reflexivity|]. split; [exact ND12|]. split; [apply incl_app; assumption|].
      split; [rewrite length_app; lia|].
      split; [intros e st0 H; discriminate H|].
      split; [reflexivity|].
      intros n0 st0 n3 st3 H H'. inversion H; subst. rewrite E2 in H'. discriminate H'. }
  exists (a1 ++ a2 ++ a3).
  split.
  - destruct (sync_honor_groups w self st2) as [[n3|e3] st3] eqn:E3;
      destruct (stage_delta HonorGroups _ _ _ _ _ E3) as (d3 & T3 & Q3 & _);
      cbn [snapshot_file] in Q3; fold a3 in Q3.
    + unfold commit. destruct (commit_fault w);
        cbn [failed snd rollback emit trace];
        rewrite T3, T2, T1, !requests_of_app, Q1, Q2, Q3; cbn [requests_of];
        rewrite ?app_nil_r, <- ?app_assoc; reflexivity.
    + cbn [failed snd rollback emit trace].
      rewrite T3, T2, T1, !requests_of_app, Q1, Q2, Q3. cbn [requests_of].
      rewrite ?app_nil_r, <- ?app_assoc. reflexivity.
  - split; [exact ND|]. split; [repeat apply incl_app; assumption|].
    split; [rewrite !length_app; lia|].
    split; [intros e st0 H; discriminate H|].
    split; [|reflexivity].
    intros n0 st0 e st3 H H'. inversion H; subst. rewrite E2 in H'. discriminate H'.
Qed.

(** ** How a run ends *)

(** X7.  Every run ends settled: the view of the transaction equals the
    committed data, the last call on the connection is [commit] when the
    run succeeds and [rollback] when it fails, [rollback] is called once on
    failure and never on success, and [commit] is called at most once. *)
Theorem run_leaves_nothing_pending :
  forall (w : world) (self : HonorsSyncer) (st : state),
    let s := fst (run w self st) in
    let st' := snd (run w self st) in
    txn st' = store st' /\
    (exists pre,
       trace st' = trace st ++ pre ++ [if success s then Commit else Rollback]) /\
    rollbacks (trace st') = rollbacks (trace st) + (if success s then 0 else 1) /\
    commits (trace st') <= S (commits (trace st)).
Proof.
  intros w self st s st'; subst s st'. unfold run.
  destruct (sync_honors w self st) as [[n1|e1] st1] eqn:E1;
    destruct (stage_delta Honors _ _ _ _ _ E1) as (d1 & T1 & _ & R1 & C1).
  2:{ cbn [failed fst snd rollback emit trace txn store set_error success].
      split; [reflexivity|]. split; [exists d1; rewrite T1, <- app_assoc; reflexivity|].
      rewrite T1, !rollbacks_app, !commits_app, R1, C1. simpl. lia. }
  destruct (sync_bonds_honors w self st1) as [[n2|e2] st2] eqn:E2;
    destruct (stage_delta BondsHonors _ _ _ _ _ E2) as (d2 & T2 & _ & R2 & C2).
  2:{ cbn [failed fst snd rollback emit trace txn store set_error success set_honors].
      split; [reflexivity|].
      split; [exists (d1 ++ d2); rewrite T2, T1, <- !app_assoc; reflexivity|].
      rewrite T2, T1, !rollbacks_app, !commits_app, R1, C1, R2, C2. simpl. lia. }
  destruct (sync_honor_groups w self st2) as [[n3|e3] st3] eqn:E3;
    destruct (stage_delta HonorGroups _ _ _ _ _ E3) as (d3 & T3 & _ & R3 & C3).
  2:{ cbn [failed fst snd rollback emit trace txn store set_error success set_honors
             set_bonds_honors].
      split; [reflexivity|].
      split; [exists (d1 ++ d2 ++ d3); rewrite T3, T2, T1, <- !app_assoc; reflexivity|].
      rewrite T3, T2, T1, !rollbacks_app, !commits_app, R1, C1, R2, C2, R3, C3.
      simpl. lia. }
  unfold commit. destruct (commit_fault w) as [msg|];
    cbn [failed fst snd rollback emit trace txn store set_error set_success success
           set_honors set_bonds_honors set_honor_groups];
    (split; [reflexivity|]).
  - split; [exists (d1 ++ d2 ++ d3 ++ [Commit]);
            rewrite T3, T2, T1, <- !app_assoc; reflexivity|].
    rewrite T3, T2, T1, !rollbacks_app, !commits_app, R1, C1, R2, C2, R3, C3.
    simpl. lia.
  - split; [exists (d1 ++ d2 ++ d3); rewrite T3, T2, T1, <- !app_assoc; reflexivity|].
    rewrite T3, T2, T1, !rollbacks_app, !commits_app, R1, C1, R2, C2, R3, C3.
    simpl. lia.
Qed.

Lemma fetch_json_result_stateless (w : world) (self : HonorsSyncer) (filename : string)
  (st st' : state) :
  fst (fetch_json w self filename st) = fst (fetch_json w self filename st').
Proof.
  rewrite !fetch_json_unfold; cbv zeta.
  destruct (http_get w (RAW_URL_TEMPLATE (repo self) filename));
    try destruct (http_get w (CDN_URL_TEMPLATE (repo self) filename)); reflexivity.
Qed.

(** What a stage that returns made of its table, in terms of the fetch at
    any state. *)
Lemma stage_table (rel : relation) (w : world) (self : HonorsSyncer)
  (st st' any : state) (n : nat) :
  stage rel w self st = (Ok n, st') ->
  exists v,
    fst (fetch_json w self (snapshot_file rel) any) = Ok v /\
    ((truthy v = false /\ n = 0 /\
      get_table rel (txn st') = get_table rel (txn st)) \/
     (truthy v = true /\
      exists ds,
        v = PList (map PDict ds) /\ n = List.length ds /\
        get_table rel (txn st') =
        upsert_all (sql_of rel) (current_timestamp w)
          (map (fun d => row_of_object rel self d (current_timestamp w)) ds)
          (get_table rel (txn st)))).
Proof.
  intros H. destruct (stage_upserts _ _ _ _ _ _ H) as (v & s0 & F & C).
  exists v. split; [|exact C].
  rewrite (fetch_json_result_stateless w self _ any st), F. reflexivity.
Qed.

(** A run that succeeds: its three stages returned, the commit went
    through, and what was committed is what the third stage left. *)
Lemma run_success_inv (w : world) (self : HonorsSyncer) (st : state) :
  success (fst (run w self st)) = true ->
  exists n1 st1 n2 st2 n3 st3,
    sync_honors w self st = (Ok n1, st1) /\
    sync_bonds_honors w self st1 = (Ok n2, st2) /\
    sync_honor_groups w self st2 = (Ok n3, st3) /\
    store (snd (run w self st)) = txn st3 /\
    res_honors (fst (run w self st)) = n1 /\
    res_bonds_honors (fst (run w self st)) = n2 /\
    res_honor_groups (fst (run w self st)) = n3.
Proof.
  unfold run.
  destruct (sync_honors w self st) as [[n1|e1] st1] eqn:E1; [|discriminate].
  destruct (sync_bonds_honors w self st1) as [[n2|e2] st2] eqn:E2; [|discriminate].
  destruct (sync_honor_groups w self st2) as [[n3|e3] st3] eqn:E3; [|discriminate].
  unfold commit. destruct (commit_fault w) as [msg|]; [discriminate|].
  intros _. exists n1, st1, n2, st2, n3, st3.
  repeat split; assumption.
Qed.

(** The table of a relation after the three stages of a run, and its count:
    those of its own stage. *)
Lemma run_success_table (w : world) (self : HonorsSyncer) (st : state) (rel : relation) :
  success (fst (run w self st)) = true ->
  exists v,
    fst (fetch_json w self (snapshot_file rel) st) = Ok v /\
    ((truthy v = false /\ count_of rel (fst (run w self st)) = 0 /\
      get_table rel (store (snd (run w self st))) = get_table rel (txn st)) \/
     (truthy v = true /\
      exists ds,
        v = PList (map PDict ds) /\
        count_of rel (fst (run w self st)) = List.length ds /\
        get_table rel (store (snd (run w self st))) =
        upsert_all (sql_of rel) (current_timestamp w)
          (map (fun d => row_of_object rel self d (current_timestamp w)) ds)
          (get_table rel (txn st)))).
Proof.
  intros H.
  destruct (run_success_inv w self st H)
    as (n1 & st1 & n2 & st2 & n3 & st3 & E1 & E2 & E3 & -> & C1 & C2 & C3).
  destruct (stage_frame Honors _ _ _ _ _ E1) as (_ & _ & O1).
  destruct (stage_frame BondsHonors _ _ _ _ _ E2) as (_ & _ & O2).
  destruct (stage_frame HonorGroups _ _ _ _ _ E3) as (_ & _ & O3).
  destruct rel; cbn [count_of].
  - destruct (O2 Honors eq_refl) as [G2 _]. destruct (O3 Honors eq_refl) as [G3 _].
    rewrite C1, G3, G2. exact (stage_table Honors w self st st1 st n1 E1).
  - destruct (O1 BondsHonors eq_refl) as [G1 _]. destruct (O3 BondsHonors eq_refl) as [G3 _].
    rewrite C2, G3, <- G1. exact (stage_table BondsHonors w self st1 st2 st n2 E2).
  - destruct (O1 HonorGroups eq_refl) as [G1 _]. destruct (O2 HonorGroups eq_refl) as [G2 _].
    rewrite C3, <- G1, <- G2. exact (stage_table HonorGroups w self st2 st3 st n3 E3).
Qed.

(** X8.  A run that succeeds publishes, for each relation, exactly the upsert of
    its snapshot over the table the transaction started from: the table
    itself when the snapshot is absent or empty, and otherwise the rows the
    objects of the array propose, upserted in order; the count of the
    relation in the summary is the length of that array.  Nothing else is
    published: each of the three tables is determined by its own file. *)
Theorem successful_run_publishes_snapshots :
  forall (w : world) (self : HonorsSyncer) (st : state),
    success (fst (run w self st)) = true ->
    error (fst (run w self st)) = None /\
    forall rel,
      let published := get_table rel (store (snd (run w self st))) in
      let count := count_of rel (fst (run w self st)) in
      exists v,
        fst (fetch_json w self (snapshot_file rel) st) = Ok v /\
        ((truthy v = false /\ count = 0 /\ published = get_table rel (txn st)) \/
         (truthy v = true /\
          exists ds,
            v = PList (map PDict ds) /\ count = List.length ds /\
            published =
            upsert_all (sql_of rel) (current_timestamp w)
              (map (fun d => row_of_object rel self d (current_timestamp w)) ds)
              (get_table rel (txn st)))).
Proof.
  intros w self st H. split.
  - revert H. run_steps w self st; cbn; intros H; try discriminate H; reflexivity.
  - intros rel. cbv zeta. apply run_success_table. exact H.
Qed.

(** ** The entry point *)

Lemma run_trace_extends (w : world) (self : HonorsSyncer) (st : state) :
  exists d, trace (snd (run w self st)) = trace st ++ d.
Proof.
  unfold run.
  destruct (sync_honors w self st) as [[n1|e1] st1] eqn:E1;
    destruct (stage_delta Honors _ _ _ _ _ E1) as (d1 & T1 & _).
  2:{ exists (d1 ++ [Rollback]). cbn [failed snd rollback emit trace].
      rewrite T1, <- app_assoc. reflexivity. }
  destruct (sync_bonds_honors w self st1) as [[n2|e2] st2] eqn:E2;
    destruct (stage_delta BondsHonors _ _ _ _ _ E2) as (d2 & T2 & _).
  2:{ exists (d1 ++ d2 ++ [Rollback]). cbn [failed snd rollback emit trace].
      rewrite T2, T1, <- !app_assoc. reflexivity. }
  destruct (sync_honor_groups w self st2) as [[n3|e3] st3] eqn:E3;
    destruct (stage_delta HonorGroups _ _ _ _ _ E3) as (d3 & T3 & _).
  2:{ exists (d1 ++ d2 ++ d3 ++ [Rollback]). cbn [failed snd rollback emit trace].
      rewrite T3, T2, T1, <- !app_assoc. reflexivity. }
  unfold commit. destruct (commit_fault w) as [msg|];
    cbn [failed snd rollback emit trace].
  - exists (d1 ++ d2 ++ d3 ++ [Commit; Rollback]).
    rewrite T3, T2, T1, <- !app_assoc. reflexivity.
  - exists (d1 ++ d2 ++ d3 ++ [Commit]).
    rewrite T3, T2, T1, <- !app_assoc. reflexivity.
Qed.

Lemma servers_repo_not_empty (server repo : string) :
  assoc server SERVERS = Some repo -> (repo =? "") = false.
Proof.
  unfold SERVERS; cbn [assoc].
  repeat match goal with
  | |- context [?s =? server] =>
      destruct (String.eqb_spec s server) as [_|_];
      [intros H; inversion H; reflexivity|]
  end.
  discriminate.
Qed.

(** C7.  A region code outside cn, jp, en, tw, kr ends [main] with status 1
    and the machine state untouched (no request made, no connection
    opened), and makes the constructor raise before it connects.  A code
    inside the enumeration resolves to a repository identifier and a display
    name, neither of them empty: the constructor goes on to connect and,
    when the connection is accepted, returns the syncer of that code with
    the resolved repository; every run of such a syncer reports the code
    and the resolved display name; and [main], given a connection string,
    passes the check on the code and opens the connection. *)
Theorem region_resolver_fails_fast :
  forall code : string,
    (~ In code ["cn"; "jp"; "en"; "tw"; "kr"] ->
     forall (w : world) (env : environ) (st : state),
       SERVER env = Some code ->
       main w env st = (1%Z, st) /\
       forall url,
         HonorsSyncer_init w url code st =
         (Raise (ValueError ("Unknown server: " ++ code)), st)) /\
    (In code ["cn"; "jp"; "en"; "tw"; "kr"] ->
     exists repo name,
       assoc code SERVERS = Some repo /\ (repo =? "") = false /\
       assoc code SERVER_NAMES = Some name /\ (name =? "") = false /\
       (forall (w : world) (url : string) (st : state),
          HonorsSyncer_init w url code st =
          match connect_fault w with
          | Some msg => (Raise (DatabaseError msg), emit (Connect url) st)
          | None => (Ok {| server := code; repo := repo |}, connected url st)
          end) /\
       (forall (w : world) (self : HonorsSyncer) (st : state),
          server self = code ->
          res_server (fst (run w self st)) = code /\
          res_server_name (fst (run w self st)) = Some name) /\
       (forall (w : world) (env : environ) (st : state) (url : string),
          DATABASE_URL env = Some url -> (url =? "") = false ->
          SERVER env = Some code ->
          exists rest, trace (snd (main w env st)) = trace st ++ Connect url :: rest)).
Proof.
  intros code; split.
  - intros Hout w env st Henv.
    pose proof (outside_enumeration code Hout) as Hnone.
    split.
    + unfold main. destruct (DATABASE_URL env) as [url|]; [|reflexivity].
      destruct (url =? ""); [reflexivity|].
      rewrite Henv; cbn [environ_get]. rewrite Hnone. reflexivity.
    + intros url. unfold HonorsSyncer_init. rewrite Hnone. reflexivity.
  - intros Hin.
    assert (Hres : exists repo name,
               assoc code SERVERS = Some repo /\ (repo =? "") = false /\
               assoc code SERVER_NAMES = Some name /\ (name =? "") = false).
    { simpl in Hin. destruct Hin as [E|[E|[E|[E|[E|[]]]]]]; subst code;
        eexists; eexists; repeat split; reflexivity. }
    destruct Hres as (repo & name & Hrepo & Hne & Hname & Hnn).
    assert (Hinit : forall (w : world) (url : string) (st : state),
               HonorsSyncer_init w url code st =
               match connect_fault w with
               | Some msg => (Raise (DatabaseError msg), emit (Connect url) st)
               | None => (Ok {| server := code; repo := repo |}, connected url st)
               end).
    { intros w url st. unfold HonorsSyncer_init. rewrite Hrepo, Hne.
      unfold bind, connect, ret. destruct (connect_fault w); reflexivity. }
    exists repo, name. repeat (split; [assumption|]). split.
    + intros w self st Hs. rewrite <- Hname, <- Hs.
      run_steps w self st; split; reflexivity.
    + intros w env st url Hurl Hnu Henv.
      unfold main. rewrite Hurl, Hnu, Henv. cbn [environ_get]. rewrite Hrepo, Hinit.
      destruct (connect_fault w) as [msg|].
      * exists []. reflexivity.
      * destruct (run_trace_extends w {| server := code; repo := repo |} (connected url st))
          as (d & Td).
        destruct (run w {| server := code; repo := repo |} (connected url st))
          as [results st2].
        cbn [snd] in Td.
        exists (d ++ [Close]).
        destruct (success results); cbn [snd close emit trace]; rewrite Td;
          unfold connected; cbn [trace]; rewrite <- !app_assoc; reflexivity.
Qed.

(** C7 on the codes [xx] and [jp]. *)
Lemma region_resolver_fails_fast_witness :
  main offline {| DATABASE_URL := Some "postgresql://sekai"; SERVER := Some "xx" |} fresh =
  (1%Z, fresh) /\
  HonorsSyncer_init offline "postgresql://sekai" "jp" fresh =
  (Ok jp, connected "postgresql://sekai" fresh) /\
  res_server_name (fst (run offline jp fresh)) = Some "日本語".
Proof.
  split.
  - destruct (region_resolver_fails_fast "xx") as [H _].
    apply H; [|reflexivity].
    simpl. intros [E|[E|[E|[E|[E|[]]]]]]; discriminate E.
  - destruct (region_resolver_fails_fast "jp") as [_ H].
    destruct H as (repo & name & Hrepo & _ & Hname & _ & Hinit & Hrun & _).
    + simpl. tauto.
    + injection Hrepo as <-. injection Hname as <-.
      split; [apply (Hinit offline)|apply Hrun; reflexivity].
Defined.

(** X9.  With a connection string and a known server, [main] opens exactly one
    connection, first of all.  When the connection is refused the process
    exits with status 1 having requested nothing.  Otherwise the syncer has
    the repository of its server, the run starts on a transaction that sees
    the committed data, and whatever the run reports the connection is
    closed last, with the committed data as the run left them. *)
Theorem main_opens_and_closes :
  forall (w : world) (env : environ) (st : state) (url repo : string),
    DATABASE_URL env = Some url -> (url =? "") = false ->
    assoc (environ_get (SERVER env) "cn") SERVERS = Some repo ->
    let syncer := {| server := environ_get (SERVER env) "cn"; repo := repo |} in
    let after_run := snd (run w syncer (connected url st)) in
    match connect_fault w with
    | Some msg =>
        main w env st = (1%Z, emit (Connect url) st)
    | None =>
        trace (snd (main w env st)) = trace after_run ++ [Close] /\
        (exists mid, trace (snd (main w env st)) =
                     trace st ++ Connect url :: mid ++ [Close]) /\
        store (snd (main w env st)) = store after_run /\
        txn (snd (main w env st)) = store after_run /\
        fst (main w env st) =
        (if success (fst (run w syncer (connected url st))) then 0%Z else 1%Z)
    end.
Proof.
  intros w env st url repo Hurl Hne Hrepo syncer after_run. subst syncer after_run.
  unfold main. rewrite Hurl, Hne, Hrepo.
  unfold HonorsSyncer_init. rewrite Hrepo, (servers_repo_not_empty _ _ Hrepo).
  unfold bind, connect, ret.
  destruct (connect_fault w) as [msg|]; [reflexivity|].
  fold (connected url st). cbn [emit trace store].
  change {| store := store st; txn := store st; trace := trace st ++ [Connect url] |}
    with (connected url st).
  destruct (run w {| server := environ_get (SERVER env) "cn"; repo := repo |}
              (connected url st)) as [results st2] eqn:Erun.
  pose proof (run_trace_extends w
                {| server := environ_get (SERVER env) "cn"; repo := repo |}
                (connected url st)) as (pre & Tpre).
  rewrite Erun in Tpre. cbn [snd] in Tpre.
  cbn [fst snd close emit trace store txn].
  assert (Hshape :
            exists mid, trace st2 ++ [Close] = trace st ++ Connect url :: mid ++ [Close]).
  { exists pre. rewrite Tpre. unfold connected; cbn [trace].
    rewrite <- !app_assoc. reflexivity. }
  destruct (success results); cbn [fst snd trace store txn]; auto.
Qed.

(** ** Running again *)

Lemma upsert_all_again_hidden (rel : relation) (self : HonorsSyncer)
  (ds : list (list (string * pyval))) (n1 n2 : Z) (t : table) :
  map hide_updated_at
    (upsert_all (sql_of rel) n2 (map (fun d => row_of_object rel self d n2) ds)
       (upsert_all (sql_of rel) n1 (map (fun d => row_of_object rel self d n1) ds) t)) =
  map hide_updated_at
    (upsert_all (sql_of rel) n1 (map (fun d => row_of_object rel self d n1) ds) t).
Proof.
  pose proof (target_kept_sql rel) as TK.
  set (rows1 := map (fun d => row_of_object rel self d n1) ds).
  set (rows2 := map (fun d => row_of_object rel self d n2) ds).
  assert (Hh : map hide_updated_at rows2 = map hide_updated_at rows1).
  { unfold rows1, rows2. rewrite !map_map. apply map_ext. intros d.
    apply row_of_object_hidden. }
  assert (Hself : forall r, In r rows1 -> do_update (sql_of rel) n1 r r = r).
  { intros r Hr. unfold rows1 in Hr. apply in_map_iff in Hr.
    destruct Hr as (d & <- & _). apply row_of_object_self_update. }
  rewrite (hide_upsert_all (sql_of rel) (target_not_stamp_sql rel) (set_shape_sql rel)
             n2 n1 rows2 rows1 Hh _ _ eq_refl).
  rewrite (upsert_all_idem (sql_of rel) TK _ _ Hself). reflexivity.
Qed.

(** X10.  Two runs that succeed on the same three snapshots, the second on a
    transaction that starts from what the first committed: the second
    publishes tables that differ from the first's in [updated_at] only (same
    rows, same order, same values elsewhere), and reports the same counts. *)
Theorem rerun_changes_only_updated_at :
  forall (w1 w2 : world) (self : HonorsSyncer) (st st2 : state),
    success (fst (run w1 self st)) = true ->
    success (fst (run w2 self st2)) = true ->
    txn st2 = store (snd (run w1 self st)) ->
    (forall rel,
       fst (fetch_json w2 self (snapshot_file rel) st2) =
       fst (fetch_json w1 self (snapshot_file rel) st)) ->
    forall rel,
      map hide_updated_at (get_table rel (store (snd (run w2 self st2)))) =
      map hide_updated_at (get_table rel (store (snd (run w1 self st)))) /\
      count_of rel (fst (run w2 self st2)) = count_of rel (fst (run w1 self st)).
Proof.
  intros w1 w2 self st st2 H1 H2 Ht Hf rel.
  destruct (run_success_table w1 self st rel H1) as (v1 & F1 & C1).
  destruct (run_success_table w2 self st2 rel H2) as (v2 & F2 & C2).
  rewrite Hf, F1 in F2. inversion F2; subst v2. clear F2.
  rewrite Ht in C2.
  destruct C1 as [(T1 & N1 & G1)|(T1 & ds1 & E1 & N1 & G1)];
    destruct C2 as [(T2 & N2 & G2)|(T2 & ds2 & E2 & N2 & G2)];
    try congruence.
  - rewrite G2, N1, N2. auto.
  - assert (ds2 = ds1) by (apply map_PDict_inj; congruence). subst ds2.
    rewrite N1, N2. split; [|reflexivity].
    rewrite G2, G1. apply upsert_all_again_hidden.
Qed.

(* ================================================================== *)
(** * The further properties on the sample data *)
(* ================================================================== *)

(** The fetcher when the raw URL serves the float 1.5. *)
Lemma fetch_json_outcomes_witness :
  fst (fetch_json raw_float jp "honors.json" fresh) =
  Raise (TypeError "object of type 'float' has no len()") /\
  trace (snd (fetch_json raw_float jp "honors.json" fresh)) =
  [ Request (RAW_URL_TEMPLATE (repo jp) "honors.json") ] /\
  fst (fetch_json deep_nesting jp "honors.json" fresh) = Raise too_deep.
Proof.
  pose proof (fetch_json_outcomes raw_float jp "honors.json" fresh) as H.
  pose proof (fetch_json_outcomes deep_nesting jp "honors.json" fresh) as H'.
  cbv zeta in H, H'. destruct H as (_ & _ & _ & _ & T). destruct H' as (_ & _ & _ & U & _).
  split; [reflexivity|]. split; [apply T; reflexivity|apply U; reflexivity].
Defined.

(** A [bondsHonors.json] whose array holds a number. *)
Lemma stage_rejects_non_objects_witness :
  stage BondsHonors broken_bonds jp synced =
  (Raise (AttributeError "'int' object has no attribute 'get'"),
   snd (fetch_json broken_bonds jp "bondsHonors.json" synced)) /\
  txn (snd (fetch_json broken_bonds jp "bondsHonors.json" synced)) = txn synced.
Proof.
  destruct (stage_rejects_non_objects BondsHonors broken_bonds jp synced
              (snd (fetch_json broken_bonds jp "bondsHonors.json" synced))
              (PList [PInt 3])) as (H & _ & T & _).
  - vm_compute; reflexivity.
  - split; [|exact T]. apply (H [] (PInt 3) []); reflexivity.
Defined.

(** Re-syncing the second sample object alone leaves the row of the first
    as it was, and the table as long. *)
Lemma stage_keeps_other_rows_witness :
  find_key honors_sql (identity jp honor_1)
    (honors (txn (snd (sync_honors resync_bare jp synced)))) =
  find_key honors_sql (identity jp honor_1) (honors (txn synced)) /\
  List.length (honors (txn synced)) <=
  List.length (honors (txn (snd (sync_honors resync_bare jp synced)))).
Proof.
  pose proof (stage_keeps_other_rows Honors resync_bare jp synced
                (snd (sync_honors resync_bare jp synced)) 1) as H.
  cbv zeta in H. destruct H as (_ & H & _ & L).
  - vm_compute; reflexivity.
  - split; [|exact L]. apply H.
    intros ds d E Hd.
    assert (F : fst (fetch_json resync_bare jp (snapshot_file Honors) synced) =
                Ok (PList (map PDict [bare_honor_2]))) by (vm_compute; reflexivity).
    rewrite F in E. injection E as E.
    apply (map_PDict_inj [bare_honor_2] ds) in E.
    subst ds. destruct Hd as [<-|[]]. discriminate.
Defined.

(** The first sync of the two sample objects creates the row of the
    second. *)
Lemma new_identity_is_inserted_witness :
  find_key honors_sql (identity jp honor_2)
    (honors (txn (snd (sync_honors (snapshot_two 10) jp fresh)))) =
  Some (row_of_object Honors jp honor_2 10).
Proof.
  apply (new_identity_is_inserted Honors (snapshot_two 10) jp fresh
           (snd (sync_honors (snapshot_two 10) jp fresh)) 2
           [PDict honor_1] [] honor_2).
  - vm_compute; reflexivity.
  - vm_compute; reflexivity.
  - intros d' [].
  - reflexivity.
Defined.

(** The run on the two sample objects publishes their two rows. *)
Lemma successful_run_publishes_snapshots_witness :
  error (fst (run (snapshot_two 10) jp fresh)) = None /\
  exists v,
    fst (fetch_json (snapshot_two 10) jp "honors.json" fresh) = Ok v /\
    ((truthy v = false /\ res_honors (fst (run (snapshot_two 10) jp fresh)) = 0 /\
      honors (store (snd (run (snapshot_two 10) jp fresh))) = honors (txn fresh)) \/
     (truthy v = true /\
      exists ds,
        v = PList (map PDict ds) /\
        res_honors (fst (run (snapshot_two 10) jp fresh)) = List.length ds /\
        honors (store (snd (run (snapshot_two 10) jp fresh))) =
        upsert_all honors_sql 10 (map (fun d => row_of_object Honors jp d 10) ds)
          (honors (txn fresh)))).
Proof.
  destruct (successful_run_publishes_snapshots (snapshot_two 10) jp fresh) as [E H].
  - vm_compute; reflexivity.
  - split; [exact E|]. exact (H Honors).
Defined.

(** [main] on a complete configuration: one connection, closed last. *)
Lemma main_opens_and_closes_witness :
  trace (snd (main (snapshot_two 10) jp_environ fresh)) =
  trace (snd (run (snapshot_two 10) jp (connected "postgresql://sekai" fresh))) ++ [Close] /\
  fst (main (snapshot_two 10) jp_environ fresh) = 0%Z.
Proof.
  pose proof (main_opens_and_closes (snapshot_two 10) jp_environ fresh
                "postgresql://sekai" "haruki-sekai-master" eq_refl eq_refl eq_refl) as H.
  cbv zeta in H. cbn [connect_fault snapshot_two serving] in H.
  destruct H as (T & _ & _ & _ & C).
  split; [exact T|]. rewrite C. vm_compute; reflexivity.
Defined.

(** The two sample objects, run at time 10 and again at time 20. *)
Lemma rerun_changes_only_updated_at_witness :
  let first := snd (run (snapshot_two 10) jp fresh) in
  let again := snd (run (snapshot_two 20) jp first) in
  map hide_updated_at (honors (store again)) = map hide_updated_at (honors (store first)) /\
  res_honors (fst (run (snapshot_two 20) jp first)) = 2.
Proof.
  intros first again.
  destruct (rerun_changes_only_updated_at (snapshot_two 10) (snapshot_two 20) jp
              fresh first) with (rel := Honors) as [H C].
  - vm_compute; reflexivity.
  - vm_compute; reflexivity.
  - vm_compute; reflexivity.
  - intros rel. destruct rel; vm_compute; reflexivity.
  - split; [exact H|]. cbn [count_of] in C. rewrite C. vm_compute; reflexivity.
Defined.

(** The requests of a run when no host is in reach: the six URLs. *)
Lemma run_requests_each_url_once_witness :
  exists l,
    requests_of (trace (snd (run offline jp fresh))) = requests_of (trace fresh) ++ l /\
    NoDup l /\ List.length l = 6.
Proof.
  destruct (run_requests_each_url_once offline jp fresh) as (l & R & N & _ & _ & _ & _ & A).
  exists l. split; [exact R|]. split; [exact N|].
  rewrite (A 0 (snd (sync_honors offline jp fresh))
             0 (snd (sync_bonds_honors offline jp (snd (sync_honors offline jp fresh)))));
    vm_compute; reflexivity.
Defined.
